(** * SimStack: the three simulator endpoints, embedded and verified

    The repository hosts three stateless FastAPI endpoints
    ([simulators/queue/app.py], [simulators/resource/app.py],
    [simulators/traffic/app.py]).  Each [simulate] is a pure function of
    its request body.  Python's [float] is IEEE 754 binary64, which is
    Rocq's primitive [float]; the development therefore evaluates the
    code bit for bit, and proves its universal properties through the
    [SpecFloat] specification of the primitive operations.

    - Part 1 embeds the Python built-ins the endpoints use and the three
      [simulate] functions, line by line.
    - Part 2 ([Rounding]) shows that the binary64 operations are the exact
      real operations followed by one rounding to nearest, ties to even,
      that this rounding is monotone and that it leaves doubles unchanged.
    - Part 3 lifts this to primitive floats and to the clamps of the code.
    - Parts 4 and 5 state and prove the properties of the endpoints. *)

From Stdlib Require Import ZArith Lia Lra Reals Bool List Floats.

Set Warnings "-inexact-float".

(** * Part 1: the code *)

(** ** Python exceptions and the result of a call *)

Inductive exn : Set :=
| ZeroDivisionError
| OverflowError.

Inductive result (A : Type) : Type :=
| Return (a : A)
| Raise (e : exn).

Arguments Return {A} a.
Arguments Raise {A} e.

Definition bind {A B : Type} (c : result A) (k : A -> result B) : result B :=
  match c with
  | Return a => k a
  | Raise e => Raise e
  end.

Notation "x <- c ;; k" := (bind c (fun x => k))
  (at level 61, c at next level, right associativity).

(** ** The Python built-ins the three endpoints call *)

Module Py.
Local Open Scope float_scope.

(** [x / y] on floats: [float_div] raises when the divisor compares equal to
    zero (either sign) and is the IEEE quotient otherwise. *)
Definition truediv (x y : float) : result float :=
  if y =? 0 then Raise ZeroDivisionError else Return (x / y).

(** [min(a, b)] and [max(a, b)] with two positional arguments: the first
    argument is kept unless the second compares strictly below (above) it. *)
Definition min (a b : float) : float := if b <? a then b else a.
Definition max (a b : float) : float := if a <? b then b else a.

(** [math.isnan] and [math.isinf]. *)
Definition isnan (x : float) : bool := is_nan x.
Definition isinf (x : float) : bool := is_infinity x.

(** Conversion of an [int] operand in mixed [int]/[float] arithmetic
    ([PyLong_AsDouble]): round to nearest, ties to even; a magnitude that
    rounds past the largest double raises. *)
Definition float_of_int (n : Z) : result float :=
  match binary_normalize prec emax n 0 false with
  | S754_infinity _ => Raise OverflowError
  | sf => Return (SF2Prim sf)
  end.

(** The integer nearest to [m * 2^e * 10^ndigits], ties to even
    (the decimal digits [_Py_dg_dtoa] produces in mode 3). *)
Definition scaled_digits (m : positive) (e : Z) (ndigits : nat) : Z :=
  let n := (Z.pos m * 10 ^ Z.of_nat ndigits)%Z in
  match e with
  | Z0 => n
  | Zpos p => (n * 2 ^ Zpos p)%Z
  | Zneg p =>
      let d := (2 ^ Zpos p)%Z in
      let q := (n / d)%Z in
      let r := (n mod d)%Z in
      match (2 * r ?= d)%Z with
      | Lt => q
      | Gt => (q + 1)%Z
      | Eq => if Z.even q then q else (q + 1)%Z
      end
  end.

(** [round(x, ndigits)] for [ndigits >= 0]: non-finite values and zeros
    round to themselves; otherwise the value is rounded to a decimal
    string and the string is read back as the nearest double. *)
Definition round (x : float) (ndigits : nat) : float :=
  match Prim2SF x with
  | S754_finite s m e =>
      match scaled_digits m e ndigits with
      | Zpos k =>
          SF2Prim (SF64div (S754_finite s k 0)
                           (S754_finite false (Z.to_pos (10 ^ Z.of_nat ndigits)) 0))
      | _ => SF2Prim (S754_zero s)
      end
  | _ => x
  end.

End Py.

(** [lo <= x <= hi] as Python evaluates it on floats. *)
Definition within (lo hi x : float) : bool := ((lo <=? x) && (x <=? hi))%float.

(** ** simulators/queue/app.py *)

Module Queue.
Local Open Scope float_scope.

Record QueueInput : Set := {
  arrival_rate : float;
  service_rate : float
}.

(** The three local variables [wait_minutes], [utilization] and
    [queue_length] as they stand just before the [return]. *)
Record Locals : Set := {
  wait_minutes : float;
  utilization : float;
  queue_length : float
}.

(** The ["metrics"] object of the response. *)
Record Metrics : Set := {
  avg_wait_time_min : float;
  m_utilization : float;
  avg_queue_length : float
}.

(** Line 16. *)
Definition rho_of (inp : QueueInput) : result float :=
  if 0 <? service_rate inp
  then Py.truediv (arrival_rate inp) (service_rate inp)
  else Return 0.0.

(** Lines 19-29: the three-way branch giving [wait] and [queue_length]. *)
Definition branch (inp : QueueInput) (rho : float) : result (float * float) :=
  if 0.95 <=? rho then Return (240.0, 50.0)
  else if rho <? 0 then Return (0.0, 0.0)
  else
    wait <- Py.truediv rho (service_rate inp * (1 - rho)) ;;
    queue_length <- Py.truediv rho (1 - rho) ;;
    Return (wait, queue_length).

(** Line 32. *)
Definition to_minutes (wait : float) : float :=
  Py.max 0.0 (Py.min (wait * 60.0) 300.0).

(** Lines 35-36. *)
Definition json_guard (wait_minutes : float) : float :=
  if Py.isnan wait_minutes || Py.isinf wait_minutes then 240.0 else wait_minutes.

(** Line 39. *)
Definition clamp_utilization (rho : float) : float :=
  Py.max 0.0 (Py.min rho 0.99).

(** Line 42: the operand of the inner [min], then the whole clamp. *)
Definition queue_operand (queue_length : float) : float :=
  if negb (Py.isnan queue_length) then queue_length else 50.0.

Definition clamp_queue (queue_length : float) : float :=
  Py.max 0.0 (Py.min (queue_operand queue_length) 100.0).

(** Lines 16-42. *)
Definition simulate_locals (inp : QueueInput) : result Locals :=
  rho <- rho_of inp ;;
  wq <- branch inp rho ;;
  let wait_minutes := json_guard (to_minutes (fst wq)) in
  let utilization := clamp_utilization rho in
  let queue_length := clamp_queue (snd wq) in
  Return {| wait_minutes := wait_minutes;
            utilization := utilization;
            queue_length := queue_length |}.

(** Lines 44-50. *)
Definition report (l : Locals) : Metrics :=
  {| avg_wait_time_min := Py.round (wait_minutes l) 2;
     m_utilization := Py.round (utilization l) 3;
     avg_queue_length := Py.round (queue_length l) 2 |}.

Definition simulate (inp : QueueInput) : result Metrics :=
  l <- simulate_locals inp ;;
  Return (report l).

End Queue.

(** ** simulators/resource/app.py *)

Module Resource.
Local Open Scope float_scope.

(** [shifts] is accepted and never read. *)
Record ResourceInput : Set := {
  staff : Z
}.

Record Metrics : Set := {
  coverage_units : float;
  satisfaction : float
}.

Definition simulate (inp : ResourceInput) : result Metrics :=
  s1 <- Py.float_of_int (staff inp) ;;
  let coverage := s1 * 0.8 in
  s2 <- Py.float_of_int (staff inp) ;;
  q <- Py.truediv s2 100.0 ;;
  let satisfaction := Py.min 1.0 (0.5 + q) in
  Return {| coverage_units := coverage; satisfaction := satisfaction |}.

End Resource.

(** ** simulators/traffic/app.py *)

Module Traffic.
Local Open Scope float_scope.

(** [signal_timing] is accepted and never read. *)
Record TrafficInput : Set := {
  density : float;
  signal_timing : option float
}.

Record Metrics : Set := {
  avg_speed_kmh : float;
  throughput_veh_per_hr : float
}.

Definition simulate (inp : TrafficInput) : Metrics :=
  let speed := Py.max 5.0 (60.0 * (1.0 - Py.min 1.0 (Py.max 0.0 (density inp)))) in
  let throughput := speed * 10.0 in
  {| avg_speed_kmh := speed; throughput_veh_per_hr := throughput |}.

End Traffic.

(** * Part 2: binary64 operations are correctly rounded real operations

    [SpecFloat] gives each primitive operation as a function on mantissas
    and exponents.  This part relates those functions to real numbers: the
    result of [*], [+], [-], [/] and of the conversion from an integer is
    the exact real result rounded to nearest, ties to even, and rounding is
    monotone and leaves doubles unchanged. *)

Module Rounding.
Local Open Scope R_scope.

Definition bpow (e : Z) : R := powerRZ 2 e.

Arguments bpow : simpl never.

Lemma bpow_gt_0 e : 0 < bpow e.
Proof. apply powerRZ_lt; lra. Qed.

Lemma bpow_add a b : bpow (a + b) = bpow a * bpow b.
Proof. apply powerRZ_add; lra. Qed.

Lemma bpow_0 : bpow 0 = 1.
Proof. reflexivity. Qed.

Lemma bpow_1 : bpow 1 = 2.
Proof. unfold bpow; simpl; lra. Qed.

Lemma bpow_m1 : bpow (-1) = / 2.
Proof. unfold bpow; simpl; lra. Qed.

Lemma bpow_succ e : bpow (e + 1) = 2 * bpow e.
Proof. rewrite bpow_add, bpow_1; lra. Qed.

Lemma bpow_pred e : bpow (e - 1) = bpow e / 2.
Proof.
  replace e with ((e - 1) + 1)%Z at 2 by lia.
  rewrite bpow_succ; lra.
Qed.

Lemma bpow_IZR (n : Z) : (0 <= n)%Z -> bpow n = IZR (2 ^ n).
Proof.
  intros Hn. unfold bpow.
  rewrite <- (Z2Nat.id n Hn) at 1.
  rewrite <- pow_powerRZ, pow_IZR, Z2Nat.id by exact Hn.
  reflexivity.
Qed.

Lemma bpow_le a b : (a <= b)%Z -> bpow a <= bpow b.
Proof.
  intros H. replace b with (a + (b - a))%Z by lia.
  rewrite bpow_add, (bpow_IZR (b - a)) by lia.
  assert (1 <= IZR (2 ^ (b - a))).
  { apply IZR_le. pose proof (Z.pow_pos_nonneg 2 (b - a)). lia. }
  pose proof (bpow_gt_0 a). nra.
Qed.

Lemma bpow_lt a b : (a < b)%Z -> bpow a < bpow b.
Proof.
  intros H.
  assert (Hle : bpow (a + 1) <= bpow b) by (apply bpow_le; lia).
  rewrite bpow_succ in Hle.
  pose proof (bpow_gt_0 a); lra.
Qed.

Lemma bpow_lt_inv a b : bpow a < bpow b -> (a < b)%Z.
Proof.
  intros H. destruct (Z_lt_le_dec a b) as [Hlt | Hge]; [exact Hlt|].
  apply bpow_le in Hge; lra.
Qed.

Lemma bpow_opp e : bpow (- e) = / bpow e.
Proof. apply powerRZ_neg'. Qed.

(** Number of binary digits. *)
Lemma digits2_pos_bounds (m : positive) :
  (2 ^ (Zpos (digits2_pos m) - 1) <= Zpos m < 2 ^ Zpos (digits2_pos m))%Z.
Proof.
  induction m as [m IH | m IH |]; simpl digits2_pos;
    [rewrite Pos2Z.inj_succ | rewrite Pos2Z.inj_succ | simpl; lia];
    set (d := Zpos (digits2_pos m)) in *;
    (assert (Hd : (2 ^ d = 2 * 2 ^ (d - 1))%Z)
      by (rewrite <- Z.pow_succ_r by (unfold d; lia); f_equal; lia));
    replace (Z.succ d - 1)%Z with d by lia;
    rewrite Z.pow_succ_r by (unfold d; lia); lia.
Qed.

Lemma digits2_bpow (m : positive) :
  bpow (Zpos (digits2_pos m) - 1) <= IZR (Zpos m) < bpow (Zpos (digits2_pos m)).
Proof.
  pose proof (digits2_pos_bounds m) as [H1 H2].
  rewrite !bpow_IZR by lia.
  split; [apply IZR_le | apply IZR_lt]; assumption.
Qed.

(** ** Real value of a float and the order of floats *)

Definition sgn (s : bool) (x : R) : R := if s then - x else x.

Definition F2R (m : positive) (e : Z) : R := IZR (Zpos m) * bpow e.

(** Infinities sit at [2^emax], beyond every finite double; NaN is given 0
    and is always handled apart. *)
Definition SFord (x : spec_float) : R :=
  match x with
  | S754_zero _ => 0
  | S754_nan => 0
  | S754_infinity s => sgn s (bpow emax)
  | S754_finite s m e => sgn s (F2R m e)
  end.

Definition cmp_spec (c : comparison) (x y : R) : Prop :=
  match c with
  | Lt => x < y
  | Eq => x = y
  | Gt => y < x
  end.

Lemma F2R_gt_0 m e : 0 < F2R m e.
Proof.
  unfold F2R. pose proof (bpow_gt_0 e).
  assert (0 < IZR (Zpos m)) by (apply IZR_lt; lia). nra.
Qed.

Lemma bounded_inv m e :
  bounded prec emax m e = true ->
  (emin <= e <= emax - prec)%Z /\
  IZR (Zpos m) < bpow prec /\
  (e = emin \/ bpow (prec - 1) <= IZR (Zpos m)).
Proof.
  unfold bounded, canonical_mantissa, fexp.
  rewrite andb_true_iff, Z.eqb_eq, Z.leb_le. intros [Hc He].
  pose proof (digits2_bpow m) as [Hlo Hhi].
  set (d := Zpos (digits2_pos m)) in *.
  assert (Hd : (d <= prec)%Z) by lia.
  repeat split; try lia.
  - apply Rlt_le_trans with (1 := Hhi). apply bpow_le; exact Hd.
  - destruct (Z.eq_dec e emin) as [-> | Hne]; [left; reflexivity | right].
    assert (d = prec) by lia. subst d. rewrite <- H. exact Hlo.
Qed.

Lemma bounded_lt_emax m e :
  bounded prec emax m e = true -> F2R m e < bpow emax.
Proof.
  intros H. destruct (bounded_inv _ _ H) as (He & Hm & _).
  unfold F2R. pose proof (bpow_gt_0 e).
  apply Rlt_le_trans with (bpow prec * bpow e); [nra |].
  rewrite <- bpow_add. apply bpow_le. lia.
Qed.

Lemma F2R_compare m1 e1 m2 e2 :
  bounded prec emax m1 e1 = true ->
  bounded prec emax m2 e2 = true ->
  cmp_spec (match Z.compare e1 e2 with
            | Lt => Lt
            | Gt => Gt
            | Eq => Pos.compare_cont Eq m1 m2
            end) (F2R m1 e1) (F2R m2 e2).
Proof.
  intros H1 H2.
  destruct (bounded_inv _ _ H1) as (He1 & Hm1 & Hn1).
  destruct (bounded_inv _ _ H2) as (He2 & Hm2 & Hn2).
  assert (Hcross : forall ma ea mb eb,
             (ea < eb)%Z -> IZR (Zpos ma) < bpow prec ->
             bpow (prec - 1) <= IZR (Zpos mb) -> F2R ma ea < F2R mb eb).
  { intros ma ea mb eb Hlt Ha Hb. unfold F2R.
    pose proof (bpow_gt_0 ea). pose proof (bpow_gt_0 eb).
    apply Rlt_le_trans with (bpow prec * bpow ea); [nra |].
    apply Rle_trans with (bpow (prec - 1) * bpow eb); [| nra].
    rewrite <- !bpow_add. apply bpow_le. lia. }
  destruct (Z.compare_spec e1 e2) as [Heq | Hlt | Hgt].
  - subst e2. fold (Pos.compare m1 m2).
    unfold F2R. pose proof (bpow_gt_0 e1).
    destruct (Pos.compare_spec m1 m2) as [Hm | Hm | Hm]; simpl.
    + subst; reflexivity.
    + apply Rmult_lt_compat_r; [assumption | apply IZR_lt; lia].
    + apply Rmult_lt_compat_r; [assumption | apply IZR_lt; lia].
  - simpl. apply Hcross; try assumption.
    destruct Hn2 as [-> | Hn2]; [lia | exact Hn2].
  - simpl. apply Hcross; try assumption; try lia.
    destruct Hn1 as [-> | Hn1]; [lia | exact Hn1].
Qed.

Lemma SFcompare_ord x y :
  valid_binary x = true -> valid_binary y = true ->
  x <> S754_nan -> y <> S754_nan ->
  exists c, SFcompare x y = Some c /\ cmp_spec c (SFord x) (SFord y).
Proof.
  intros Vx Vy Nx Ny.
  pose proof (bpow_gt_0 emax) as Hmax.
  destruct x as [sx | sx | | sx mx ex], y as [sy | sy | | sy my ey];
    try congruence; simpl in Vx, Vy; simpl SFcompare; simpl SFord;
    repeat match goal with
           | H : bounded _ _ ?m ?e = true |- _ =>
               pose proof (bounded_lt_emax _ _ H);
               pose proof (F2R_gt_0 m e);
               generalize dependent H
           end; intros.
  all: try solve [eexists; split; [reflexivity | simpl; lra]].
  all: try solve [destruct sx; eexists; (split; [reflexivity | simpl; lra])].
  all: try solve [destruct sy; eexists; (split; [reflexivity | simpl; lra])].
  all: try solve [destruct sx, sy; eexists; (split; [reflexivity | simpl; lra])].
  pose proof (F2R_compare _ _ _ _ Vx Vy) as Hc.
  pose proof (F2R_compare _ _ _ _ Vy Vx) as Hc'.
  destruct sx, sy; try solve [eexists; (split; [reflexivity | simpl; lra])].
  - eexists; split; [reflexivity |].
    destruct (Z.compare_spec ex ey) as [-> | Hlt | Hgt]; simpl in *.
    + rewrite Z.compare_refl in Hc'.
      destruct (Pos.compare_cont Eq mx my); simpl in *; lra.
    + lra.
    + lra.
  - eexists; split; [reflexivity | exact Hc].
Qed.

(** ** Round to nearest, ties to even, as [binary_round_aux] computes it *)

(** Where a real [u] lies with respect to the integers [m] and [m + 1]. *)
Definition inbetween (u : R) (m : Z) (l : location) : Prop :=
  match l with
  | loc_Exact => u = IZR m
  | loc_Inexact Lt => IZR m < u < IZR m + / 2
  | loc_Inexact Eq => u = IZR m + / 2
  | loc_Inexact Gt => IZR m + / 2 < u < IZR m + 1
  end.

Definition locates (u : R) (mrs : shr_record) : Prop :=
  (0 <= shr_m mrs)%Z /\ inbetween u (shr_m mrs) (loc_of_shr_record mrs).

Lemma IZR_xO p : IZR (Zpos p~0) = 2 * IZR (Zpos p).
Proof. rewrite Pos2Z.inj_xO, mult_IZR; reflexivity. Qed.

Lemma IZR_xI p : IZR (Zpos p~1) = 2 * IZR (Zpos p) + 1.
Proof. rewrite Pos2Z.inj_xI, plus_IZR, mult_IZR; reflexivity. Qed.

Lemma locates_shr_1 u mrs :
  locates u mrs -> locates (u / 2) (shr_1 mrs).
Proof.
  destruct mrs as [m r s]. unfold locates. cbn [shr_m]. intros [Hm Hu].
  destruct m as [| p | p]; [| | lia].
  - destruct r, s; cbn [shr_1 orb shr_m loc_of_shr_record inbetween] in *;
      (split; [lia | lra]).
  - destruct p as [p | p |]; destruct r, s;
      cbn [shr_1 orb shr_m loc_of_shr_record inbetween] in *;
      try rewrite (IZR_xO p) in Hu; try rewrite (IZR_xI p) in Hu;
      (split; [lia | lra]).
Qed.

Lemma locates_iter_shr_1 n : forall u mrs,
  locates u mrs -> locates (u * bpow (- Zpos n)) (iter_pos shr_1 n mrs).
Proof.
  induction n as [n IH | n IH |]; intros u mrs H; simpl iter_pos.
  - apply locates_shr_1 in H. apply IH in H. apply IH in H.
    replace (u * bpow (- Zpos n~1)) with (u / 2 * bpow (- Zpos n) * bpow (- Zpos n)); [exact H |].
    replace (- Zpos n~1)%Z with (- Zpos n + - Zpos n + - 1)%Z by lia.
    rewrite !bpow_add, bpow_m1. field.
  - apply IH in H. apply IH in H.
    replace (u * bpow (- Zpos n~0)) with (u * bpow (- Zpos n) * bpow (- Zpos n)); [exact H |].
    replace (- Zpos n~0)%Z with (- Zpos n + - Zpos n)%Z by lia.
    rewrite !bpow_add. ring.
  - apply locates_shr_1 in H.
    change (Z.opp 1%Z) with (-1)%Z. rewrite bpow_m1. exact H.
Qed.

Lemma loc_of_shr_record_of_loc m l :
  loc_of_shr_record (shr_record_of_loc m l) = l /\
  shr_m (shr_record_of_loc m l) = m.
Proof. destruct l as [| []]; split; reflexivity. Qed.

(** A shift by [n] places moves the unit from [2^e] to [2^(e + n)]. *)
Lemma locates_shr v mrs e n :
  locates (v * bpow (- e)) mrs ->
  (0 <= n)%Z ->
  locates (v * bpow (- (e + n))) (fst (shr mrs e n)) /\
  snd (shr mrs e n) = (e + n)%Z.
Proof.
  intros H Hn. destruct n as [| p | p]; [| | lia]; simpl.
  - rewrite Z.add_0_r. split; [exact H | reflexivity].
  - split; [| reflexivity].
    apply (locates_iter_shr_1 p) in H.
    replace (- (e + Zpos p))%Z with (- e + - Zpos p)%Z by lia.
    rewrite bpow_add, <- Rmult_assoc. exact H.
Qed.

Definition cexp_of (v : R) (e : Z) : Prop :=
  (e = emin /\ v < bpow (emin + prec)) \/
  ((emin < e)%Z /\ bpow (e + prec - 1) <= v < bpow (e + prec)).

Definition near_even (u : R) (n : Z) : Prop :=
  IZR n - / 2 <= u <= IZR n + / 2 /\
  (u = IZR n - / 2 \/ u = IZR n + / 2 -> Z.even n = true).

(** [rnd v rho]: [rho] is the positive real [v] rounded to binary64, with
    everything from [2^emax] on collapsed to [2^emax] (overflow). *)
Definition rnd (v rho : R) : Prop :=
  exists e n, cexp_of v e /\ near_even (v * bpow (- e)) n /\
              rho = Rmin (IZR n * bpow e) (bpow emax).

Definition has_sign (s : bool) (r : spec_float) : Prop :=
  match r with
  | S754_zero s' | S754_infinity s' | S754_finite s' _ _ => s' = s
  | S754_nan => False
  end.

Lemma prec_eq : prec = 53%Z.
Proof. reflexivity. Qed.
Lemma emax_eq : emax = 1024%Z.
Proof. reflexivity. Qed.
Lemma emin_eq : emin = (-1074)%Z.
Proof. reflexivity. Qed.

Ltac zconst :=
  pose proof prec_eq as Hprec; pose proof emax_eq as Hemax;
  pose proof emin_eq as Hemin_eq.

Lemma Zdigits2_le_of_lt (p : positive) (k : Z) :
  (0 <= k)%Z -> (Zpos p < 2 ^ k)%Z -> (Zpos (digits2_pos p) <= k)%Z.
Proof.
  intros Hk Hp. pose proof (digits2_pos_bounds p) as [Hlo _].
  assert (2 ^ (Zpos (digits2_pos p) - 1) < 2 ^ k)%Z by lia.
  apply Z.pow_lt_mono_r_iff in H; lia.
Qed.

Lemma Zdigits2_ge_of_le (p : positive) (k : Z) :
  (0 <= k)%Z -> (2 ^ k <= Zpos p)%Z -> (k < Zpos (digits2_pos p))%Z.
Proof.
  intros Hk Hp. pose proof (digits2_pos_bounds p) as [_ Hhi].
  assert (2 ^ k < 2 ^ Zpos (digits2_pos p))%Z by lia.
  apply Z.pow_lt_mono_r_iff in H; lia.
Qed.

Lemma shr_nonpos mrs e n : (n <= 0)%Z -> shr mrs e n = (mrs, e).
Proof. destruct n; [reflexivity | lia | reflexivity]. Qed.

Lemma near_even_round u m l :
  (0 <= m)%Z -> inbetween u m l -> near_even u (round_nearest_even m l).
Proof.
  intros Hm Hu. unfold near_even.
  destruct l as [| []]; cbn [inbetween round_nearest_even] in *.
  - split; [lra | intros [H | H]; lra].
  - destruct (Z.even m) eqn:Hev.
    + split; [lra | intros _; exact Hev].
    + rewrite plus_IZR. split; [lra |]. intros _.
      rewrite Z.even_add, Hev. reflexivity.
  - split; [lra | intros [H | H]; lra].
  - rewrite plus_IZR. split; [lra | intros [H | H]; lra].
Qed.

Lemma round_nearest_even_nonneg m l :
  (0 <= m)%Z -> (0 <= round_nearest_even m l)%Z.
Proof.
  intros Hm. destruct l as [| []]; cbn [round_nearest_even]; try lia.
  destruct (Z.even m); lia.
Qed.

Lemma near_even_lt_IZR u n k : near_even u n -> u < IZR k -> (n <= k)%Z.
Proof.
  intros [[Hlo _] _] Hu.
  assert (IZR n < IZR (k + 1)) by (rewrite plus_IZR; lra).
  apply lt_IZR in H. lia.
Qed.

Lemma near_even_ge_IZR u n k : near_even u n -> IZR k <= u -> (k <= n)%Z.
Proof.
  intros [[_ Hhi] _] Hu.
  assert (IZR k < IZR (n + 1)) by (rewrite plus_IZR; lra).
  apply lt_IZR in H. lia.
Qed.

Lemma cexp_of_shift v m e l :
  0 < v -> (0 <= m)%Z -> inbetween (v * bpow (- e)) m l ->
  (e <= fexp prec emax (Zdigits2 m + e))%Z ->
  cexp_of v (fexp prec emax (Zdigits2 m + e)).
Proof.
  intros Hv Hm Hu He. zconst.
  assert (Hfl : IZR m <= v * bpow (- e) < IZR m + 1).
  { destruct l as [| []]; cbn [inbetween] in Hu; lra. }
  assert (Hve : v = v * bpow (- e) * bpow e).
  { rewrite Rmult_assoc, <- bpow_add, Z.add_opp_diag_l, bpow_0. ring. }
  pose proof (bpow_gt_0 e) as Hbe.
  unfold cexp_of, fexp in *.
  destruct m as [| p | p]; [| | lia].
  - cbn [Zdigits2] in *. rewrite Z.add_0_l in *.
    left. split; [lia |].
    assert (Hvlt : v < bpow e) by (rewrite Hve at 1; simpl in Hfl; nra).
    apply Rlt_le_trans with (1 := Hvlt). apply bpow_le. lia.
  - cbn [Zdigits2] in *.
    pose proof (digits2_bpow p) as [Hlo Hhi].
    set (d := Zpos (digits2_pos p)) in *.
    assert (Hup : IZR (Zpos p) + 1 <= bpow d).
    { pose proof (digits2_pos_bounds p) as [_ Hlt]. fold d in Hlt.
      rewrite bpow_IZR by (unfold d; lia).
      rewrite <- plus_IZR. apply IZR_le. lia. }
    assert (Hv1 : bpow (d - 1 + e) <= v).
    { rewrite bpow_add, Hve at 1. nra. }
    assert (Hv2 : v < bpow (d + e)).
    { rewrite bpow_add. rewrite Hve at 1. nra. }
    destruct (Z.max_spec (d + e - prec) emin) as [[Hc ->] | [Hc ->]].
    + left. split; [reflexivity |].
      apply Rlt_le_trans with (1 := Hv2). apply bpow_le. lia.
    + destruct (Z.eq_dec (d + e - prec) emin) as [Heq | Hne].
      * left. split; [exact Heq |].
        apply Rlt_le_trans with (1 := Hv2). apply bpow_le. lia.
      * right. split; [lia |].
        replace (d + e - prec + prec - 1)%Z with (d - 1 + e)%Z by lia.
        replace (d + e - prec + prec)%Z with (d + e)%Z by lia.
        split; assumption.
Qed.

Definition finish (s : bool) (mrs : shr_record) (e : Z) : spec_float :=
  match shr_m mrs with
  | Z0 => S754_zero s
  | Zpos m => if (e <=? emax - prec)%Z then S754_finite s m e else S754_infinity s
  | Zneg _ => S754_nan
  end.

Lemma binary_round_aux_unfold s m e l :
  binary_round_aux prec emax s m e l =
  let '(mrs', e') := shr_fexp prec emax m e l in
  let '(mrs'', e'') :=
    shr_fexp prec emax (round_nearest_even (shr_m mrs') (loc_of_shr_record mrs')) e' loc_Exact in
  finish s mrs'' e''.
Proof. reflexivity. Qed.

Lemma cexp_scaled v e :
  0 < v -> cexp_of v e ->
  (emin <= e)%Z /\ 0 < v * bpow (- e) < bpow prec /\
  ((emin < e)%Z -> bpow (prec - 1) <= v * bpow (- e)).
Proof.
  intros Hv Hc. pose proof (bpow_gt_0 (- e)) as Hb.
  assert (Hs : forall k, bpow (e + k) * bpow (- e) = bpow k).
  { intros k. rewrite <- bpow_add. f_equal. lia. }
  destruct Hc as [[-> Hlt] | [Hgt [Hlo Hhi]]].
  - split; [lia |]. split; [split; [nra |] | lia].
    rewrite <- (Hs prec). nra.
  - split; [lia |]. split; [split; [nra |] |].
    + rewrite <- (Hs prec). nra.
    + intros _. rewrite <- (Hs (prec - 1)%Z).
      replace (e + (prec - 1))%Z with (e + prec - 1)%Z by lia. nra.
Qed.

Lemma finish_correct s n e v :
  0 < v -> cexp_of v e -> near_even (v * bpow (- e)) n ->
  let '(mrs, e2) := shr_fexp prec emax n e loc_Exact in
  let r := finish s mrs e2 in
  valid_binary r = true /\ has_sign s r /\
  SFord r = sgn s (Rmin (IZR n * bpow e) (bpow emax)).
Proof.
  intros Hv Hc Hn. zconst.
  destruct (cexp_scaled v e Hv Hc) as (Hemin & [Hu0 Hu1] & Hnorm).
  set (u := v * bpow (- e)) in *.
  assert (Hn0 : (0 <= n)%Z) by (apply (near_even_ge_IZR u); [exact Hn | simpl; lra]).
  assert (Hn1 : (n <= 2 ^ prec)%Z).
  { apply (near_even_lt_IZR u); [exact Hn |]. rewrite <- bpow_IZR by lia. exact Hu1. }
  assert (Hn2 : (emin < e)%Z -> (2 ^ (prec - 1) <= n)%Z).
  { intros Hlt. apply (near_even_ge_IZR u); [exact Hn |].
    rewrite <- bpow_IZR by lia. apply Hnorm, Hlt. }
  pose proof (bpow_gt_0 e) as Hbe. pose proof (bpow_gt_0 emax) as Hbmax.
  destruct (Z.eq_dec n (2 ^ prec)) as [Hfull | Hnfull].
  - (* the mantissa overflowed to 2^prec: one more shift *)
    subst n. unfold shr_fexp.
    replace (fexp prec emax (Zdigits2 (2 ^ prec) + e) - e)%Z with 1%Z
      by (unfold fexp; change (Zdigits2 (2 ^ prec)) with 54%Z; lia).
    change (shr (shr_record_of_loc (2 ^ prec) loc_Exact) e 1)
      with ({| shr_m := 2 ^ (prec - 1); shr_r := false; shr_s := false |}, (e + 1)%Z).
    unfold finish. cbn [shr_m].
    change (2 ^ (prec - 1))%Z with (Zpos 4503599627370496).
    assert (Hval : IZR (2 ^ prec) * bpow e = F2R 4503599627370496 (e + 1)).
    { unfold F2R. rewrite bpow_succ.
      change (2 ^ prec)%Z with (2 * 4503599627370496)%Z. rewrite mult_IZR. ring. }
    destruct (Z.leb_spec (e + 1) (emax - prec)) as [Hle | Hgt].
    + assert (Hb : bounded prec emax 4503599627370496 (e + 1) = true).
      { unfold bounded, canonical_mantissa, fexp.
        change (Zpos (digits2_pos 4503599627370496)) with 53%Z.
        apply andb_true_iff; split; [apply Z.eqb_eq | apply Z.leb_le]; lia. }
      split; [exact Hb |]. split; [reflexivity |].
      cbn [SFord]. f_equal. rewrite Hval.
      pose proof (bounded_lt_emax _ _ Hb). rewrite Rmin_left; lra.
    + split; [reflexivity |]. split; [reflexivity |].
      cbn [SFord]. f_equal. rewrite Rmin_right; [reflexivity |].
      rewrite Hval. unfold F2R.
      change (IZR (Zpos 4503599627370496)) with (IZR (2 ^ (prec - 1))).
      rewrite <- bpow_IZR, <- bpow_add by lia. apply bpow_le. lia.
  - destruct n as [| p | p]; [| | lia].
    + change (shr_fexp prec emax 0 e loc_Exact)
        with (shr (shr_record_of_loc 0 loc_Exact) e (fexp prec emax e - e)).
      rewrite shr_nonpos by (unfold fexp; lia).
      unfold finish; cbn. split; [reflexivity |]. split; [reflexivity |].
      rewrite Rmult_0_l, Rmin_left by lra. destruct s; simpl; lra.
    + assert (Hd : (Zpos (digits2_pos p) <= prec)%Z).
      { apply Zdigits2_le_of_lt; lia. }
      unfold shr_fexp. cbn [Zdigits2].
      rewrite shr_nonpos by (unfold fexp; lia).
      unfold finish. cbn [shr_record_of_loc shr_m].
      assert (Hcan : canonical_mantissa prec emax p e = true).
      { unfold canonical_mantissa, fexp. apply Z.eqb_eq.
        destruct (Z.eq_dec e emin) as [-> | Hne]; [lia |].
        assert (Hdd : (prec - 1 < Zpos (digits2_pos p))%Z)
          by (apply Zdigits2_ge_of_le; [lia | apply Hn2; lia]).
        lia. }
      destruct (Z.leb_spec e (emax - prec)) as [Hle | Hgt].
      * assert (Hb : bounded prec emax p e = true).
        { unfold bounded. rewrite Hcan. apply Z.leb_le. exact Hle. }
        split; [exact Hb |]. split; [reflexivity |].
        cbn [SFord]. f_equal.
        pose proof (bounded_lt_emax _ _ Hb). unfold F2R in *.
        rewrite Rmin_left; lra.
      * split; [reflexivity |]. split; [reflexivity |].
        cbn [SFord]. f_equal. rewrite Rmin_right; [reflexivity |].
        assert (Hpp : IZR (2 ^ (prec - 1)) <= IZR (Zpos p)) by (apply IZR_le, Hn2; lia).
        rewrite <- bpow_IZR in Hpp by lia.
        apply Rle_trans with (bpow (prec - 1) * bpow e); [| nra].
        rewrite <- bpow_add. apply bpow_le. lia.
Qed.

Theorem binary_round_aux_correct s m e l v :
  0 < v -> (0 <= m)%Z -> inbetween (v * bpow (- e)) m l ->
  (e <= fexp prec emax (Zdigits2 m + e))%Z ->
  let r := binary_round_aux prec emax s m e l in
  valid_binary r = true /\ has_sign s r /\
  exists rho, rnd v rho /\ SFord r = sgn s rho.
Proof.
  intros Hv Hm Hu He r. subst r.
  rewrite binary_round_aux_unfold.
  pose proof (cexp_of_shift v m e l Hv Hm Hu He) as Hc.
  set (e1 := fexp prec emax (Zdigits2 m + e)) in *.
  assert (Hloc : locates (v * bpow (- e)) (shr_record_of_loc m l)).
  { destruct (loc_of_shr_record_of_loc m l) as [Hl Hsm].
    unfold locates. rewrite Hl, Hsm. split; assumption. }
  destruct (locates_shr v _ e (e1 - e) Hloc ltac:(lia)) as [Hloc1 He1].
  assert (Hs1 : shr_fexp prec emax m e l =
                (fst (shr (shr_record_of_loc m l) e (e1 - e)), e1)).
  { unfold shr_fexp. fold e1.
    rewrite (surjective_pairing (shr _ _ _)) at 1. rewrite He1. f_equal. lia. }
  rewrite Hs1. clear Hs1.
  set (mrs1 := fst (shr (shr_record_of_loc m l) e (e1 - e))) in *.
  replace (e + (e1 - e))%Z with e1 in * by lia.
  destruct Hloc1 as [Hm1 Hin1].
  pose proof (near_even_round _ _ _ Hm1 Hin1) as Hne.
  set (n := round_nearest_even (shr_m mrs1) (loc_of_shr_record mrs1)) in *.
  pose proof (finish_correct s n e1 v Hv Hc Hne) as Hfin.
  destruct (shr_fexp prec emax n e1 loc_Exact) as [mrs2 e2].
  destruct Hfin as (Hvalid & Hsign & Hord).
  split; [exact Hvalid |]. split; [exact Hsign |].
  eexists. split; [| exact Hord].
  exists e1, n. repeat split; try assumption; apply Hne.
Qed.

(** *** Rounding is monotone and fixes the doubles *)

Lemma near_even_mono u1 n1 u2 n2 :
  near_even u1 n1 -> near_even u2 n2 -> u1 <= u2 -> (n1 <= n2)%Z.
Proof.
  intros [[L1 H1] E1] [[L2 H2] E2] Hu.
  destruct (Z_le_gt_dec n1 n2) as [Hle | Hgt]; [exact Hle | exfalso].
  assert (Hr : IZR (n2 + 1) <= IZR n1) by (apply IZR_le; lia).
  rewrite plus_IZR in Hr.
  assert (Hev1 : Z.even n1 = true) by (apply E1; left; lra).
  assert (Hev2 : Z.even n2 = true) by (apply E2; right; lra).
  assert (Heq : IZR n1 = IZR (n2 + 1)) by (rewrite plus_IZR; lra).
  apply eq_IZR in Heq. subst n1.
  rewrite Z.even_add, Hev2 in Hev1. discriminate.
Qed.

Lemma cexp_of_mono v1 e1 v2 e2 :
  0 < v1 -> v1 <= v2 -> cexp_of v1 e1 -> cexp_of v2 e2 -> (e1 <= e2)%Z.
Proof.
  intros Hv Hle H1 H2. zconst.
  destruct (Z_le_gt_dec e1 e2) as [Hok | Hgt]; [exact Hok | exfalso].
  assert (Hb : bpow (e2 + prec) <= bpow (e1 + prec - 1)) by (apply bpow_le; lia).
  destruct H1 as [[-> _] | [Hm1 [Hlo1 _]]].
  - destruct H2 as [[-> _] | [Hm2 _]]; lia.
  - destruct H2 as [[-> Hhi2] | [_ [_ Hhi2]]]; lra.
Qed.

Lemma rnd_mono v1 r1 v2 r2 :
  0 < v1 -> v1 <= v2 -> rnd v1 r1 -> rnd v2 r2 -> r1 <= r2.
Proof.
  intros Hv Hle (e1 & n1 & Hc1 & Hn1 & ->) (e2 & n2 & Hc2 & Hn2 & ->). zconst.
  assert (Hv2 : 0 < v2) by lra.
  pose proof (cexp_of_mono _ _ _ _ Hv Hle Hc1 Hc2) as He.
  destruct (cexp_scaled v1 e1 Hv Hc1) as (Hm1 & [Hu1 Hu1'] & _).
  destruct (cexp_scaled v2 e2 Hv2 Hc2) as (Hm2 & [Hu2 Hu2'] & Hnorm2).
  apply Rle_min_compat_r.
  destruct (Z.eq_dec e1 e2) as [<- | Hne].
  - pose proof (bpow_gt_0 e1). pose proof (bpow_gt_0 (- e1)).
    assert (Hnn : (n1 <= n2)%Z).
    { apply (near_even_mono _ _ _ _ Hn1 Hn2). nra. }
    apply IZR_le in Hnn. nra.
  - assert (Hlt : (e1 < e2)%Z) by lia.
    assert (H1 : (n1 <= 2 ^ prec)%Z).
    { apply (near_even_lt_IZR _ _ _ Hn1). rewrite <- bpow_IZR by lia. exact Hu1'. }
    assert (H2' : (2 ^ (prec - 1) <= n2)%Z).
    { apply (near_even_ge_IZR _ _ _ Hn2). rewrite <- bpow_IZR by lia.
      apply Hnorm2. lia. }
    apply IZR_le in H1, H2'. rewrite <- bpow_IZR in H1, H2' by lia.
    pose proof (bpow_gt_0 e1). pose proof (bpow_gt_0 e2).
    apply Rle_trans with (bpow prec * bpow e1); [nra |].
    apply Rle_trans with (bpow (prec - 1) * bpow e2); [| nra].
    rewrite <- !bpow_add. apply bpow_le. lia.
Qed.

Lemma rnd_unique v r1 r2 : 0 < v -> rnd v r1 -> rnd v r2 -> r1 = r2.
Proof.
  intros Hv H1 H2.
  pose proof (rnd_mono v r1 v r2 Hv (Rle_refl v) H1 H2).
  pose proof (rnd_mono v r2 v r1 Hv (Rle_refl v) H2 H1). lra.
Qed.

Lemma rnd_exact m e :
  bounded prec emax m e = true -> rnd (F2R m e) (F2R m e).
Proof.
  intros Hb. pose proof (bounded_lt_emax _ _ Hb) as Hlt.
  destruct (bounded_inv _ _ Hb) as (He & Hm & Hn). zconst.
  pose proof (bpow_gt_0 e) as Hbe.
  exists e, (Zpos m). split; [| split].
  - unfold cexp_of, F2R.
    destruct (Z.eq_dec e emin) as [-> | Hne].
    + left. split; [reflexivity |]. rewrite bpow_add, Rmult_comm.
      apply Rmult_lt_compat_l; assumption.
    + right. destruct Hn as [Hn | Hn]; [contradiction |].
      split; [lia |].
      replace (e + prec - 1)%Z with (prec - 1 + e)%Z by lia.
      replace (e + prec)%Z with (prec + e)%Z by lia.
      rewrite !bpow_add. nra.
  - unfold F2R. rewrite Rmult_assoc, <- bpow_add, Z.add_opp_diag_r, bpow_0, Rmult_1_r.
    split; [lra | intros [H2 | H2]; lra].
  - unfold F2R in *. rewrite Rmin_left; lra.
Qed.

Lemma rnd_bounds v r : 0 < v -> rnd v r -> 0 <= r <= bpow emax.
Proof.
  intros Hv (e & n & Hc & Hn & ->).
  destruct (cexp_scaled v e Hv Hc) as (_ & [Hu _] & _).
  pose proof (bpow_gt_0 emax). pose proof (bpow_gt_0 e).
  assert (Hn0 : (0 <= n)%Z) by (apply (near_even_ge_IZR _ _ _ Hn); simpl; lra).
  apply IZR_le in Hn0.
  split; [apply Rmin_glb; nra | apply Rmin_r].
Qed.

Lemma rnd_overflow v r : bpow emax <= v -> rnd v r -> r = bpow emax.
Proof.
  intros Hv (e & n & Hc & Hn & ->). zconst.
  pose proof (bpow_gt_0 emax) as Hmax.
  assert (Hv0 : 0 < v) by lra.
  destruct (cexp_scaled v e Hv0 Hc) as (_ & _ & Hnorm).
  assert (He : (emax - prec < e)%Z).
  { destruct Hc as [[-> Hlt] | [_ [_ Hlt]]].
    - assert (bpow (emin + prec) <= bpow emax) by (apply bpow_le; lia). lra.
    - assert (Hlt' : bpow emax < bpow (e + prec)) by lra.
      apply bpow_lt_inv in Hlt'. lia. }
  assert (H2' : (2 ^ (prec - 1) <= n)%Z).
  { apply (near_even_ge_IZR _ _ _ Hn). rewrite <- bpow_IZR by lia.
    apply Hnorm. lia. }
  apply IZR_le in H2'. rewrite <- bpow_IZR in H2' by lia.
  pose proof (bpow_gt_0 e).
  apply Rmin_right.
  apply Rle_trans with (bpow (prec - 1) * bpow e); [| nra].
  rewrite <- bpow_add. apply bpow_le. lia.
Qed.

Lemma iter_xO_value m d : Zpos (Pos.iter xO m d) = (Zpos m * 2 ^ Zpos d)%Z.
Proof.
  change (Pos.iter xO m d) with (shift_pos d m).
  rewrite shift_pos_correct. change (Z.pow_pos 2 d) with (2 ^ Zpos d)%Z. ring.
Qed.

Lemma iter_xO_digits m d :
  Zpos (digits2_pos (Pos.iter xO m d)) = (Zpos (digits2_pos m) + Zpos d)%Z.
Proof.
  induction d as [| d IH] using Pos.peano_ind.
  - simpl. lia.
  - rewrite Pos.iter_succ. simpl digits2_pos. rewrite Pos2Z.inj_succ, IH. lia.
Qed.

Theorem binary_round_correct s m e :
  let r := binary_round prec emax s m e in
  valid_binary r = true /\ has_sign s r /\
  exists rho, rnd (F2R m e) rho /\ SFord r = sgn s rho.
Proof.
  unfold binary_round.
  set (e' := fexp prec emax (Zpos (digits2_pos m) + e)).
  assert (H : exists mz ez, shl_align m e e' = (mz, ez) /\ F2R mz ez = F2R m e /\
              (ez <= fexp prec emax (Zpos (digits2_pos mz) + ez))%Z).
  { unfold shl_align. destruct (e' - e)%Z as [| p | p] eqn:Hd.
    - exists m, e. repeat split. fold e'. lia.
    - exists m, e. repeat split. fold e'. lia.
    - exists (Pos.iter xO m p), e'. split; [reflexivity |]. split.
      + unfold F2R. rewrite iter_xO_value, mult_IZR, <- bpow_IZR by lia.
        rewrite Rmult_assoc, <- bpow_add. do 2 f_equal. lia.
      + rewrite iter_xO_digits.
        replace (Zpos (digits2_pos m) + Zpos p + e')%Z
          with (Zpos (digits2_pos m) + e)%Z by lia.
        fold e'. lia. }
  destruct H as (mz & ez & -> & Hval & Hsh).
  rewrite <- Hval.
  apply binary_round_aux_correct.
  - apply F2R_gt_0.
  - lia.
  - cbn [inbetween]. unfold F2R.
    rewrite Rmult_assoc, <- bpow_add, Z.add_opp_diag_r, bpow_0. ring.
  - cbn [Zdigits2]. exact Hsh.
Qed.

(** *** Signed rounding *)

Definition Rnd (v rho : R) : Prop :=
  (v = 0 /\ rho = 0) \/ (0 < v /\ rnd v rho) \/ (v < 0 /\ rnd (- v) (- rho)).

Lemma sgn_opp s x : sgn (negb s) x = - sgn s x.
Proof. destruct s; simpl; lra. Qed.

Lemma sgn_mult s1 s2 x y : sgn s1 x * sgn s2 y = sgn (xorb s1 s2) (x * y).
Proof. destruct s1, s2; simpl; lra. Qed.

Lemma Rnd_sgn s v rho : 0 < v -> rnd v rho -> Rnd (sgn s v) (sgn s rho).
Proof.
  intros Hv H. destruct s; simpl.
  - right; right. split; [lra |]. rewrite !Ropp_involutive. exact H.
  - right; left. split; assumption.
Qed.

Lemma Rnd_opp v rho : Rnd v rho -> Rnd (- v) (- rho).
Proof.
  intros [[-> ->] | [[Hv H] | [Hv H]]].
  - left; split; lra.
  - right; right. split; [lra |]. rewrite !Ropp_involutive. exact H.
  - right; left. split; [lra | exact H].
Qed.

Lemma Rnd_sign v rho :
  Rnd v rho ->
  (0 <= v -> 0 <= rho) /\ (v <= 0 -> rho <= 0) /\ - bpow emax <= rho <= bpow emax.
Proof.
  pose proof (bpow_gt_0 emax).
  intros [[-> ->] | [[Hv Hr] | [Hv Hr]]].
  - lra.
  - pose proof (rnd_bounds _ _ Hv Hr). lra.
  - assert (Hv' : 0 < - v) by lra. pose proof (rnd_bounds _ _ Hv' Hr). lra.
Qed.

Lemma Rnd_mono v1 r1 v2 r2 : v1 <= v2 -> Rnd v1 r1 -> Rnd v2 r2 -> r1 <= r2.
Proof.
  intros Hle H1 H2.
  pose proof (Rnd_sign _ _ H1) as (P1 & N1 & _).
  pose proof (Rnd_sign _ _ H2) as (P2 & N2 & _).
  destruct H1 as [[E1 ->] | [[Hv1 Hr1] | [Hv1 Hr1]]];
    destruct H2 as [[E2 E2'] | [[Hv2 Hr2] | [Hv2 Hr2]]]; try lra.
  - apply (rnd_mono v1 r1 v2 r2); assumption.
  - assert (- r2 <= - r1); [| lra].
    apply (rnd_mono (- v2) (- r2) (- v1) (- r1)); try assumption; lra.
Qed.

Lemma Rnd_unique v r1 r2 : Rnd v r1 -> Rnd v r2 -> r1 = r2.
Proof.
  intros H1 H2.
  pose proof (Rnd_mono v r1 v r2 (Rle_refl v) H1 H2).
  pose proof (Rnd_mono v r2 v r1 (Rle_refl v) H2 H1). lra.
Qed.

Definition is_fin (x : spec_float) : bool :=
  match x with
  | S754_zero _ | S754_finite _ _ _ => true
  | _ => false
  end.

Lemma Rnd_exact x :
  valid_binary x = true -> is_fin x = true -> Rnd (SFord x) (SFord x).
Proof.
  intros Hv Hf. destruct x as [s | s | | s m e]; try discriminate.
  - left; split; reflexivity.
  - cbn [SFord]. apply Rnd_sgn; [apply F2R_gt_0 | apply rnd_exact, Hv].
Qed.

Lemma SFord_fin_lt x :
  valid_binary x = true -> is_fin x = true ->
  - bpow emax < SFord x < bpow emax.
Proof.
  intros Hv Hf. pose proof (bpow_gt_0 emax).
  destruct x as [s | s | | s m e]; try discriminate; cbn [SFord].
  - lra.
  - pose proof (bounded_lt_emax _ _ Hv). pose proof (F2R_gt_0 m e).
    destruct s; simpl; lra.
Qed.

(** The result of an operation that rounds: a valid double or infinity that
    is the rounding of the exact real result. *)
Definition rounds_to (v : R) (r : spec_float) : Prop :=
  valid_binary r = true /\ r <> S754_nan /\ Rnd v (SFord r).

Lemma has_sign_not_nan s r : has_sign s r -> r <> S754_nan.
Proof. destruct r; simpl; congruence. Qed.

Lemma binary_round_rounds s m e :
  rounds_to (sgn s (F2R m e)) (binary_round prec emax s m e).
Proof.
  destruct (binary_round_correct s m e) as (Hv & Hs & rho & Hr & Ho).
  split; [exact Hv |]. split; [exact (has_sign_not_nan _ _ Hs) |].
  rewrite Ho. apply Rnd_sgn; [apply F2R_gt_0 | exact Hr].
Qed.

Lemma binary_normalize_rounds m e sz :
  rounds_to (IZR m * bpow e) (binary_normalize prec emax m e sz).
Proof.
  destruct m as [| p | p]; cbn [binary_normalize].
  - split; [reflexivity |]. split; [discriminate |].
    left. split; [ring | reflexivity].
  - exact (binary_round_rounds false p e).
  - pose proof (binary_round_rounds true p e) as H.
    cbn [sgn] in H. unfold F2R in H.
    replace (IZR (Z.neg p) * bpow e) with (- (IZR (Zpos p) * bpow e)); [exact H |].
    change (Z.neg p) with (- Zpos p)%Z. rewrite opp_IZR. ring.
Qed.

Theorem SFmul_rounds x y :
  valid_binary x = true -> valid_binary y = true ->
  is_fin x = true -> is_fin y = true ->
  rounds_to (SFord x * SFord y) (SFmul prec emax x y).
Proof.
  intros Vx Vy Fx Fy.
  destruct x as [sx | sx | | sx mx ex]; try discriminate;
    destruct y as [sy | sy | | sy my ey]; try discriminate;
    cbn [SFmul SFord].
  1-3: split; [reflexivity |]; split; [discriminate |]; left;
       split; [ring | reflexivity].
  cbn [valid_binary] in Vx, Vy.
  destruct (bounded_inv _ _ Vx) as (Hex & _ & _).
  destruct (bounded_inv _ _ Vy) as (Hey & _ & _).
  assert (Hcx : canonical_mantissa prec emax mx ex = true)
    by (unfold bounded in Vx; apply andb_true_iff in Vx; apply Vx).
  assert (Hcy : canonical_mantissa prec emax my ey = true)
    by (unfold bounded in Vy; apply andb_true_iff in Vy; apply Vy).
  unfold canonical_mantissa, fexp in Hcx, Hcy. apply Z.eqb_eq in Hcx, Hcy.
  zconst.
  rewrite sgn_mult.
  destruct (binary_round_aux_correct (xorb sx sy) (Zpos (mx * my)) (ex + ey)
              loc_Exact (F2R mx ex * F2R my ey)) as (Hv & Hs & rho & Hr & Ho).
  - pose proof (F2R_gt_0 mx ex). pose proof (F2R_gt_0 my ey). nra.
  - lia.
  - cbn [inbetween]. unfold F2R. rewrite Pos2Z.inj_mul, mult_IZR.
    rewrite Z.opp_add_distr, bpow_add.
    pose proof (bpow_gt_0 ex). pose proof (bpow_gt_0 ey).
    rewrite !bpow_opp. field. split; lra.
  - cbn [Zdigits2]. unfold fexp.
    assert (Hd : (Zpos (digits2_pos mx) + Zpos (digits2_pos my) - 1
                  <= Zpos (digits2_pos (mx * my)))%Z).
    { pose proof (digits2_pos_bounds mx) as [Hx _].
      pose proof (digits2_pos_bounds my) as [Hy _].
      set (dx := Zpos (digits2_pos mx)) in *.
      set (dy := Zpos (digits2_pos my)) in *.
      assert (Hp : (2 ^ (dx - 1 + (dy - 1)) <= Zpos (mx * my))%Z).
      { rewrite Z.pow_add_r by (unfold dx, dy; lia). rewrite Pos2Z.inj_mul.
        apply Z.mul_le_mono_nonneg; try assumption; apply Z.pow_nonneg; lia. }
      apply Zdigits2_ge_of_le in Hp; [lia | unfold dx, dy; lia]. }
    lia.
  - split; [exact Hv |]. split; [exact (has_sign_not_nan _ _ Hs) |].
    rewrite Ho. apply Rnd_sgn; [| exact Hr].
    pose proof (F2R_gt_0 mx ex). pose proof (F2R_gt_0 my ey). nra.
Qed.

Lemma shl_align_fst m e ez :
  (ez <= e)%Z -> IZR (Zpos (fst (shl_align m e ez))) * bpow ez = F2R m e.
Proof.
  intros Hle. unfold shl_align, F2R.
  destruct (ez - e)%Z as [| p | p] eqn:Hd; cbn [fst].
  - replace ez with e by lia. reflexivity.
  - lia.
  - rewrite iter_xO_value, mult_IZR, <- bpow_IZR by lia.
    rewrite Rmult_assoc, <- bpow_add. do 2 f_equal. lia.
Qed.

Lemma IZR_cond_Zopp s p : IZR (cond_Zopp s (Zpos p)) = sgn s (IZR (Zpos p)).
Proof. destruct s; simpl; [rewrite <- opp_IZR |]; reflexivity. Qed.

Lemma sgn_scale s x y : sgn s x * y = sgn s (x * y).
Proof. destruct s; simpl; ring. Qed.

Lemma rounds_to_exact v x :
  valid_binary x = true -> is_fin x = true -> v = SFord x -> rounds_to v x.
Proof.
  intros Hv Hf ->. split; [exact Hv |]. split.
  - destruct x; try discriminate.
  - apply Rnd_exact; assumption.
Qed.

Lemma aligned_sum sx mx ex sy my ey (op : Z -> Z -> Z) (rop : R -> R -> R) :
  (forall a b, IZR (op a b) = rop (IZR a) (IZR b)) ->
  (forall a b c, rop a b * c = rop (a * c) (b * c)) ->
  let ez := Z.min ex ey in
  IZR (op (cond_Zopp sx (Zpos (fst (shl_align mx ex ez))))
          (cond_Zopp sy (Zpos (fst (shl_align my ey ez))))) * bpow ez =
  rop (sgn sx (F2R mx ex)) (sgn sy (F2R my ey)).
Proof.
  intros Hop Hdist ez.
  rewrite Hop, Hdist, !IZR_cond_Zopp, !sgn_scale.
  rewrite !shl_align_fst by (unfold ez; lia). reflexivity.
Qed.


Theorem SFsub_rounds x y :
  valid_binary x = true -> valid_binary y = true ->
  is_fin x = true -> is_fin y = true ->
  rounds_to (SFord x - SFord y) (SFsub prec emax x y).
Proof.
  intros Vx Vy Fx Fy.
  destruct x as [sx | sx | | sx mx ex]; try discriminate;
    destruct y as [sy | sy | | sy my ey]; try discriminate;
    cbn [SFsub].
  - destruct sx, sy; apply rounds_to_exact; try reflexivity; simpl; lra.
  - apply rounds_to_exact; try assumption; try reflexivity.
    cbn [SFord]. rewrite sgn_opp. lra.
  - apply rounds_to_exact; try assumption. simpl; lra.
  - cbn [SFord]. rewrite <- (aligned_sum sx mx ex sy my ey Z.sub Rminus).
    + apply binary_normalize_rounds.
    + apply minus_IZR.
    + intros; ring.
Qed.

Lemma new_location_correct (nb k q : Z) :
  (0 <= k < nb)%Z ->
  inbetween (IZR q + IZR k / IZR nb) q (new_location nb k).
Proof.
  intros [Hk Hnb].
  assert (Hnb0 : 0 < IZR nb) by (apply IZR_lt; lia).
  assert (Hdiv : forall a b : R, a < b * IZR nb <-> a / IZR nb < b).
  { intros a b. split; intros Hab.
    - apply Rmult_lt_reg_r with (IZR nb); [exact Hnb0 |].
      unfold Rdiv. rewrite Rmult_assoc, Rinv_l, Rmult_1_r by lra. exact Hab.
    - apply Rmult_lt_compat_r with (r := IZR nb) in Hab; [| exact Hnb0].
      unfold Rdiv in Hab. rewrite Rmult_assoc, Rinv_l, Rmult_1_r in Hab by lra.
      exact Hab. }
  assert (Hdiv' : forall a b : R, b * IZR nb < a <-> b < a / IZR nb).
  { intros a b. split; intros Hab.
    - apply Rmult_lt_reg_r with (IZR nb); [exact Hnb0 |].
      unfold Rdiv. rewrite Rmult_assoc, Rinv_l, Rmult_1_r by lra. exact Hab.
    - apply Rmult_lt_compat_r with (r := IZR nb) in Hab; [| exact Hnb0].
      unfold Rdiv in Hab. rewrite Rmult_assoc, Rinv_l, Rmult_1_r in Hab by lra.
      exact Hab. }
  assert (Hpos : (0 < k)%Z -> 0 < IZR k / IZR nb).
  { intros Hk0. apply Hdiv'. rewrite Rmult_0_l. apply IZR_lt. exact Hk0. }
  assert (Hlt1 : IZR k / IZR nb < 1).
  { apply Hdiv. rewrite Rmult_1_l. apply IZR_lt. exact Hnb. }
  assert (Hhalf_lt : (2 * k < nb)%Z -> IZR k / IZR nb < / 2).
  { intros H. apply Hdiv. apply IZR_lt in H. rewrite mult_IZR in H. lra. }
  assert (Hhalf_gt : (nb < 2 * k)%Z -> / 2 < IZR k / IZR nb).
  { intros H. apply Hdiv'. apply IZR_lt in H. rewrite mult_IZR in H. lra. }
  assert (Hhalf_eq : (2 * k = nb)%Z -> IZR k / IZR nb = / 2).
  { intros H. rewrite <- H, mult_IZR. field.
    apply IZR_lt in Hnb. rewrite <- H, mult_IZR in Hnb0. lra. }
  unfold new_location, new_location_even, new_location_odd.
  destruct (Z.even nb) eqn:Hev; destruct (Z.eqb_spec k 0) as [-> | Hk0].
  - cbn [inbetween]. unfold Rdiv. rewrite Rmult_0_l. lra.
  - destruct (Z.compare_spec (2 * k) nb) as [He | Hl | Hg]; cbn [inbetween].
    + rewrite (Hhalf_eq He). reflexivity.
    + specialize (Hhalf_lt Hl). specialize (Hpos ltac:(lia)). lra.
    + specialize (Hhalf_gt Hg). lra.
  - cbn [inbetween]. unfold Rdiv. rewrite Rmult_0_l. lra.
  - assert (Hodd : (2 * k <> nb)%Z).
    { intros <-. rewrite Z.even_mul in Hev. discriminate. }
    destruct (Z.compare_spec (2 * k + 1) nb) as [He | Hl | Hg]; cbn [inbetween].
    + specialize (Hhalf_lt ltac:(lia)). specialize (Hpos ltac:(lia)). lra.
    + specialize (Hhalf_lt ltac:(lia)). specialize (Hpos ltac:(lia)). lra.
    + specialize (Hhalf_gt ltac:(lia)). lra.
Qed.

Theorem SFdiv_rounds sx mx ex sy my ey :
  rounds_to (sgn sx (F2R mx ex) / sgn sy (F2R my ey))
            (SFdiv prec emax (S754_finite sx mx ex) (S754_finite sy my ey)).
Proof.
  zconst.
  cbn [SFdiv]. unfold SFdiv_core_binary. cbn [Zdigits2].
  set (d1 := Zpos (digits2_pos mx)). set (d2 := Zpos (digits2_pos my)).
  set (e' := Z.min (fexp prec emax (d1 + ex - (d2 + ey))) (ex - ey)).
  set (s := (ex - ey - e')%Z).
  assert (Hs : (0 <= s)%Z) by (unfold s, e'; lia).
  set (m' := match s with
             | 0%Z => Zpos mx
             | Zpos _ => Z.shiftl (Zpos mx) s
             | Zneg _ => 0%Z
             end).
  assert (Hm' : m' = (Zpos mx * 2 ^ s)%Z).
  { unfold m'. destruct s as [| p | p]; [simpl; lia | | lia].
    apply Z.shiftl_mul_pow2. lia. }
  pose proof (Z_div_mod m' (Zpos my) ltac:(lia)) as Hdm.
  destruct (Z.div_eucl m' (Zpos my)) as [q r]. destruct Hdm as [Hqr Hr].
  assert (Hpow : (0 < 2 ^ s)%Z) by (apply Z.pow_pos_nonneg; lia).
  assert (Hq : (0 <= q)%Z) by nia.
  pose proof (F2R_gt_0 mx ex) as Hx. pose proof (F2R_gt_0 my ey) as Hy.
  set (v := F2R mx ex / F2R my ey).
  assert (Hv : 0 < v) by (apply Rdiv_lt_0_compat; assumption).
  assert (Hsgn : sgn sx (F2R mx ex) / sgn sy (F2R my ey) = sgn (xorb sx sy) v).
  { unfold v. destruct sx, sy; simpl; field; lra. }
  rewrite Hsgn.
  assert (Hmy : 0 < IZR (Zpos my)) by (apply IZR_lt; lia).
  assert (Hu : v * bpow (- e') = IZR q + IZR r / IZR (Zpos my)).
  { assert (Hq' : IZR m' = IZR (Zpos my) * IZR q + IZR r)
      by (rewrite Hqr, plus_IZR, mult_IZR; reflexivity).
    replace (IZR q + IZR r / IZR (Zpos my)) with (IZR m' / IZR (Zpos my))
      by (rewrite Hq'; field; lra).
    rewrite Hm', mult_IZR, <- bpow_IZR by lia.
    unfold v, F2R.
    replace (bpow s) with (bpow ex * bpow (- ey) * bpow (- e'))
      by (rewrite <- !bpow_add; f_equal; unfold s; lia).
    rewrite (bpow_opp ey).
    pose proof (bpow_gt_0 ey). pose proof (bpow_gt_0 ex). field. lra. }
  destruct (binary_round_aux_correct (xorb sx sy) q e' (new_location (Zpos my) r) v)
    as (Hval & Hsign & rho & Hrho & Hord).
  - exact Hv.
  - exact Hq.
  - rewrite Hu. apply new_location_correct. exact Hr.
  - (* enough digits in the quotient *)
    pose proof (digits2_pos_bounds mx) as [Hmx _].
    pose proof (digits2_pos_bounds my) as [_ Hmy2].
    fold d1 in Hmx. fold d2 in Hmy2.
    assert (Hd1 : (0 < d1)%Z) by (unfold d1; lia).
    assert (Hd2 : (0 < d2)%Z) by (unfold d2; lia).
    assert (Hlow : (2 ^ (d1 - 1 + s) <= m')%Z).
    { rewrite Hm', Z.pow_add_r by lia. apply Z.mul_le_mono_nonneg_r; lia. }
    assert (Hdig : (d1 + s - d2 <= Zdigits2 q)%Z).
    { destruct (Z_lt_le_dec (d1 - 1 + s - d2) 0) as [Hneg | Hnn].
      - destruct q as [| p | p]; cbn [Zdigits2]; lia.
      - assert (Hq1 : (2 ^ (d1 - 1 + s - d2) < q + 1)%Z).
        { assert (H2 : (2 ^ (d1 - 1 + s) = 2 ^ (d1 - 1 + s - d2) * 2 ^ d2)%Z).
          { rewrite <- Z.pow_add_r by lia. f_equal. lia. }
          assert (Hp2 : (0 < 2 ^ (d1 - 1 + s - d2))%Z) by (apply Z.pow_pos_nonneg; lia).
          nia. }
        destruct q as [| p | p]; [| | lia].
        + assert (0 < 2 ^ (d1 - 1 + s - d2))%Z by (apply Z.pow_pos_nonneg; lia). lia.
        + cbn [Zdigits2].
          assert (d1 - 1 + s - d2 < Zpos (digits2_pos p))%Z
            by (apply Zdigits2_ge_of_le; lia).
          lia. }
    unfold fexp in *. unfold s in Hdig. lia.
  - split; [exact Hval |]. split; [exact (has_sign_not_nan _ _ Hsign) |].
    rewrite Hord. apply Rnd_sgn; assumption.
Qed.

End Rounding.

Import Rounding.
Local Open Scope R_scope.

(** * Part 3: primitive floats, literals and clamps *)

(** ** Primitive floats through their specification *)

Definition val (x : float) : R := SFord (Prim2SF x).
Definition finite (x : float) : bool := is_fin (Prim2SF x).
Definition nonnan (x : float) : Prop := Prim2SF x <> S754_nan.
Definition RN (v : R) (x : float) : Prop := rounds_to v (Prim2SF x).

Lemma finite_nonnan x : finite x = true -> nonnan x.
Proof. unfold finite, nonnan. destruct (Prim2SF x); simpl; congruence. Qed.

Lemma compare_val x y :
  nonnan x -> nonnan y ->
  exists c, SFcompare (Prim2SF x) (Prim2SF y) = Some c /\ cmp_spec c (val x) (val y).
Proof.
  intros Hx Hy. apply SFcompare_ord; try assumption; apply Prim2SF_valid.
Qed.

Lemma SFcompare_nan_l y : SFcompare S754_nan y = None.
Proof. reflexivity. Qed.

Lemma SFcompare_nan_r x : SFcompare x S754_nan = None.
Proof. destruct x; reflexivity. Qed.

Lemma SFcompare_some x y c :
  SFcompare (Prim2SF x) (Prim2SF y) = Some c -> nonnan x /\ nonnan y.
Proof.
  unfold nonnan. intros H. split; intros E; rewrite E in H.
  - discriminate.
  - rewrite SFcompare_nan_r in H. discriminate.
Qed.

Lemma ltb_true_iff x y :
  (x <? y)%float = true <-> nonnan x /\ nonnan y /\ val x < val y.
Proof.
  rewrite ltb_spec. unfold SFltb. split.
  - destruct (SFcompare (Prim2SF x) (Prim2SF y)) as [c |] eqn:Hc; [| discriminate].
    destruct (SFcompare_some _ _ _ Hc) as [Hx Hy].
    destruct (compare_val x y Hx Hy) as (c' & Hc' & Hs).
    rewrite Hc in Hc'. injection Hc' as <-.
    destruct c; try discriminate. intros _. repeat split; assumption.
  - intros (Hx & Hy & Hlt).
    destruct (compare_val x y Hx Hy) as (c & -> & Hs).
    destruct c; simpl in Hs; try reflexivity; lra.
Qed.

Lemma leb_true_iff x y :
  (x <=? y)%float = true <-> nonnan x /\ nonnan y /\ val x <= val y.
Proof.
  rewrite leb_spec. unfold SFleb. split.
  - destruct (SFcompare (Prim2SF x) (Prim2SF y)) as [c |] eqn:Hc; [| discriminate].
    destruct (SFcompare_some _ _ _ Hc) as [Hx Hy].
    destruct (compare_val x y Hx Hy) as (c' & Hc' & Hs).
    rewrite Hc in Hc'. injection Hc' as <-.
    destruct c; try discriminate; intros _; simpl in Hs;
      repeat split; try assumption; lra.
  - intros (Hx & Hy & Hlt).
    destruct (compare_val x y Hx Hy) as (c & -> & Hs).
    destruct c; simpl in Hs; try reflexivity; lra.
Qed.

Lemma eqb_true_iff x y :
  (x =? y)%float = true <-> nonnan x /\ nonnan y /\ val x = val y.
Proof.
  rewrite eqb_spec. unfold SFeqb. split.
  - destruct (SFcompare (Prim2SF x) (Prim2SF y)) as [c |] eqn:Hc; [| discriminate].
    destruct (SFcompare_some _ _ _ Hc) as [Hx Hy].
    destruct (compare_val x y Hx Hy) as (c' & Hc' & Hs).
    rewrite Hc in Hc'. injection Hc' as <-.
    destruct c; try discriminate; intros _; simpl in Hs;
      repeat split; try assumption; lra.
  - intros (Hx & Hy & Hlt).
    destruct (compare_val x y Hx Hy) as (c & -> & Hs).
    destruct c; simpl in Hs; try reflexivity; lra.
Qed.

Lemma ltb_false_iff x y :
  nonnan x -> nonnan y -> ((x <? y)%float = false <-> val y <= val x).
Proof.
  intros Hx Hy. pose proof (ltb_true_iff x y) as H.
  destruct (x <? y)%float; split; intros H'; try reflexivity; try discriminate.
  - destruct H as [H _]. specialize (H eq_refl). lra.
  - destruct (Rle_or_lt (val y) (val x)) as [Hle | Hlt]; [exact Hle |].
    destruct H as [_ H]. specialize (H (conj Hx (conj Hy Hlt))). discriminate.
Qed.

Lemma leb_false_iff x y :
  nonnan x -> nonnan y -> ((x <=? y)%float = false <-> val y < val x).
Proof.
  intros Hx Hy. pose proof (leb_true_iff x y) as H.
  destruct (x <=? y)%float; split; intros H'; try reflexivity; try discriminate.
  - destruct H as [H _]. specialize (H eq_refl). lra.
  - destruct (Rle_or_lt (val x) (val y)) as [Hle | Hlt]; [| exact Hlt].
    destruct H as [_ H]. specialize (H (conj Hx (conj Hy Hle))). discriminate.
Qed.

Lemma is_nan_true_iff x : is_nan x = true <-> Prim2SF x = S754_nan.
Proof.
  unfold is_nan. rewrite negb_true_iff. split.
  - intros H. destruct (Prim2SF x) eqn:E; try reflexivity; exfalso;
      (assert (Hn : nonnan x) by (unfold nonnan; rewrite E; discriminate));
      (assert (Ht : (x =? x)%float = true) by (apply eqb_true_iff; auto));
      congruence.
  - intros E. destruct (x =? x)%float eqn:Hq; [| reflexivity].
    apply eqb_true_iff in Hq. destruct Hq as [Hn _]. contradiction.
Qed.

Lemma is_nan_false_iff x : is_nan x = false <-> nonnan x.
Proof.
  unfold nonnan. rewrite <- is_nan_true_iff. destruct (is_nan x); split; congruence.
Qed.

Lemma is_infinity_true_iff x :
  is_infinity x = true <-> exists s, Prim2SF x = S754_infinity s.
Proof.
  unfold is_infinity. rewrite eqb_spec, abs_spec.
  change (Prim2SF infinity) with (S754_infinity false).
  destruct (Prim2SF x) as [s | s | | s m e]; simpl; split;
    try discriminate; try (intros [s' H]; discriminate); try reflexivity.
  intros _. exists s. reflexivity.
Qed.

Lemma finite_iff x : finite x = true <-> is_nan x = false /\ is_infinity x = false.
Proof.
  unfold finite. split.
  - intros H. split.
    + apply is_nan_false_iff. apply finite_nonnan. exact H.
    + destruct (is_infinity x) eqn:E; [| reflexivity].
      apply is_infinity_true_iff in E. destruct E as [s E]. rewrite E in H. discriminate.
  - intros [Hn Hi]. apply is_nan_false_iff in Hn. unfold nonnan in Hn.
    destruct (Prim2SF x) as [s | s | | s m e] eqn:E; try reflexivity.
    + assert (is_infinity x = true) by (apply is_infinity_true_iff; eauto). congruence.
    + contradiction.
Qed.

Lemma val_finite_lt x : finite x = true -> - bpow emax < val x < bpow emax.
Proof. intros H. apply SFord_fin_lt; [apply Prim2SF_valid | exact H]. Qed.

Lemma rounds_to_fin v r :
  rounds_to v r -> - bpow emax < SFord r < bpow emax -> is_fin r = true.
Proof.
  intros (Hv & Hn & _) Hb. pose proof (bpow_gt_0 emax).
  destruct r as [s | s | | s m e]; try reflexivity; try contradiction.
  destruct s; simpl in Hb; lra.
Qed.

(** *** The arithmetic operations *)

Lemma mul_RN x y :
  finite x = true -> finite y = true -> RN (val x * val y) (x * y)%float.
Proof.
  intros Hx Hy. unfold RN. rewrite mul_spec.
  apply SFmul_rounds; try assumption; apply Prim2SF_valid.
Qed.


Lemma sub_RN x y :
  finite x = true -> finite y = true -> RN (val x - val y) (x - y)%float.
Proof.
  intros Hx Hy. unfold RN. rewrite sub_spec.
  apply SFsub_rounds; try assumption; apply Prim2SF_valid.
Qed.

Lemma div_RN x y :
  finite x = true -> finite y = true -> val y <> 0 ->
  RN (val x / val y) (x / y)%float.
Proof.
  intros Hx Hy Hy0. unfold RN, val, finite in *. rewrite div_spec.
  destruct (Prim2SF y) as [sy | sy | | sy my ey]; try discriminate.
  - simpl in Hy0. lra.
  - destruct (Prim2SF x) as [sx | sx | | sx mx ex]; try discriminate.
    + cbn [SFord]. unfold SF64div. cbn [SFdiv].
      apply rounds_to_exact; try reflexivity.
      cbn [SFord]. unfold Rdiv. ring.
    + cbn [SFord]. apply SFdiv_rounds.
Qed.

(** *** Bounding a rounded result by doubles *)

Lemma RN_exact c : finite c = true -> Rnd (val c) (val c).
Proof. intros H. apply Rnd_exact; [apply Prim2SF_valid | exact H]. Qed.

Lemma RN_nonnan v x : RN v x -> nonnan x.
Proof. intros (_ & H & _). exact H. Qed.

Lemma RN_le v x c : RN v x -> finite c = true -> v <= val c -> val x <= val c.
Proof.
  intros (_ & _ & H) Hc Hle. exact (Rnd_mono _ _ _ _ Hle H (RN_exact c Hc)).
Qed.

Lemma RN_ge v x c : RN v x -> finite c = true -> val c <= v -> val c <= val x.
Proof.
  intros (_ & _ & H) Hc Hle. exact (Rnd_mono _ _ _ _ Hle (RN_exact c Hc) H).
Qed.

Lemma RN_mono v1 x1 v2 x2 : RN v1 x1 -> RN v2 x2 -> v1 <= v2 -> val x1 <= val x2.
Proof.
  intros (_ & _ & H1) (_ & _ & H2) Hle. exact (Rnd_mono _ _ _ _ Hle H1 H2).
Qed.

Lemma RN_finite v x : RN v x -> - bpow emax < val x < bpow emax -> finite x = true.
Proof. intros H Hb. exact (rounds_to_fin _ _ H Hb). Qed.

Lemma RN_sign v x :
  RN v x -> (0 <= v -> 0 <= val x) /\ (v <= 0 -> val x <= 0).
Proof.
  intros (_ & _ & H). destruct (Rnd_sign _ _ H) as (P & N & _). split; assumption.
Qed.

Lemma RN_eq v x c : RN v x -> finite c = true -> v = val c -> val x = val c.
Proof.
  intros H Hc Hv.
  pose proof (RN_le v x c H Hc ltac:(lra)).
  pose proof (RN_ge v x c H Hc ltac:(lra)). lra.
Qed.

Lemma RN_finite_between v x lo hi :
  RN v x -> finite lo = true -> finite hi = true ->
  val lo <= v <= val hi -> finite x = true /\ val lo <= val x <= val hi.
Proof.
  intros H Hlo Hhi [H1 H2].
  pose proof (RN_ge v x lo H Hlo H1). pose proof (RN_le v x hi H Hhi H2).
  pose proof (val_finite_lt _ Hlo). pose proof (val_finite_lt _ Hhi).
  split; [| lra]. apply (RN_finite v x H). lra.
Qed.

(** ** Values of literals *)

Lemma bpow_neg_lit p : bpow (Zneg p) = / IZR (Z.pow_pos 2 p).
Proof.
  change (Zneg p) with (- Zpos p)%Z. rewrite bpow_opp, bpow_IZR by lia.
  reflexivity.
Qed.

Lemma bpow_pos_lit p : bpow (Zpos p) = IZR (Z.pow_pos 2 p).
Proof. rewrite bpow_IZR by lia. reflexivity. Qed.

Lemma val_finite_lit c s m e :
  Prim2SF c = S754_finite s m e -> val c = sgn s (IZR (Zpos m) * bpow e).
Proof. unfold val. intros ->. reflexivity. Qed.

Lemma val_zero_lit c s : Prim2SF c = S754_zero s -> val c = 0.
Proof. unfold val. intros ->. reflexivity. Qed.

Ltac lit_pow :=
  repeat match goal with
    | |- context [bpow (Zneg ?p)] =>
        rewrite (bpow_neg_lit p);
        let z := eval vm_compute in (Z.pow_pos 2 p) in
        change (Z.pow_pos 2 p) with z
    | |- context [bpow (Zpos ?p)] =>
        rewrite (bpow_pos_lit p);
        let z := eval vm_compute in (Z.pow_pos 2 p) in
        change (Z.pow_pos 2 p) with z
    | |- context [bpow Z0] => rewrite bpow_0
    end.

(** [val_lit c H] adds [H : val c = q] for a literal [c], [q] a rational. *)
Ltac val_lit c H :=
  let sf := eval vm_compute in (Prim2SF c) in
  lazymatch sf with
  | S754_finite ?s ?m ?e =>
      pose proof (val_finite_lit c s m e ltac:(vm_compute; reflexivity)) as H;
      cbn [sgn] in H;
      repeat match type of H with
        | context [bpow (Zneg ?p)] =>
            rewrite (bpow_neg_lit p) in H;
            let z := eval vm_compute in (Z.pow_pos 2 p) in
            change (Z.pow_pos 2 p) with z in H
        | context [bpow (Zpos ?p)] =>
            rewrite (bpow_pos_lit p) in H;
            let z := eval vm_compute in (Z.pow_pos 2 p) in
            change (Z.pow_pos 2 p) with z in H
        | context [bpow Z0] => rewrite bpow_0 in H
        end
  | S754_zero ?s =>
      pose proof (val_zero_lit c s ltac:(vm_compute; reflexivity)) as H
  end.

(** [val_is c q H] adds [H : val c = q], checking the literal against [q]. *)
Ltac val_is c q H :=
  let H' := fresh "Hlit" in
  val_lit c H'; assert (H : val c = q) by (rewrite H'; lra); clear H'.

Lemma fin_lit c : is_fin (Prim2SF c) = true -> finite c = true.
Proof. intros H; exact H. Qed.

Ltac fin_lit := apply fin_lit; vm_compute; reflexivity.

(** ** min, max and the clamps *)

Lemma nonnan_dec x : nonnan x \/ is_nan x = true.
Proof.
  destruct (is_nan x) eqn:E; [right; reflexivity | left].
  apply is_nan_false_iff; exact E.
Qed.

Lemma nonnan_bounded_finite x :
  nonnan x -> - bpow emax < val x < bpow emax -> finite x = true.
Proof.
  unfold nonnan, finite, val. pose proof (bpow_gt_0 emax).
  destruct (Prim2SF x) as [s | s | | s m e]; intros Hn Hb; try reflexivity.
  - destruct s; simpl in Hb; lra.
  - contradiction.
Qed.

(** [max(lo, min(x, hi))] for doubles [lo < hi]: the three outcomes. *)
Lemma clamp_cases lo hi x :
  finite lo = true -> finite hi = true -> val lo < val hi ->
  (Py.max lo (Py.min x hi) = lo /\ (is_nan x = true \/ (nonnan x /\ val x <= val lo))) \/
  (Py.max lo (Py.min x hi) = hi /\ nonnan x /\ val hi < val x) \/
  (Py.max lo (Py.min x hi) = x /\ nonnan x /\ val lo < val x <= val hi).
Proof.
  intros Hlo Hhi Hlt. unfold Py.max, Py.min.
  pose proof (finite_nonnan _ Hlo) as Nlo. pose proof (finite_nonnan _ Hhi) as Nhi.
  destruct (hi <? x)%float eqn:E1.
  - apply ltb_true_iff in E1. destruct E1 as (_ & Nx & Hx).
    assert (E : (lo <? hi)%float = true) by (apply ltb_true_iff; auto).
    rewrite E. right; left. auto.
  - destruct (lo <? x)%float eqn:E2.
    + apply ltb_true_iff in E2. destruct E2 as (_ & Nx & Hx).
      apply (ltb_false_iff hi x Nhi Nx) in E1.
      right; right. auto.
    + left. split; [reflexivity |].
      destruct (nonnan_dec x) as [Nx | Nx]; [right | left; exact Nx].
      apply (ltb_false_iff lo x Nlo Nx) in E2. auto.
Qed.

Lemma clamp_range lo hi x :
  finite lo = true -> finite hi = true -> val lo < val hi ->
  finite (Py.max lo (Py.min x hi)) = true /\
  val lo <= val (Py.max lo (Py.min x hi)) <= val hi.
Proof.
  intros Hlo Hhi Hlt.
  pose proof (val_finite_lt _ Hlo). pose proof (val_finite_lt _ Hhi).
  destruct (clamp_cases lo hi x Hlo Hhi Hlt)
    as [[-> _] | [[-> _] | [-> [Nx Hx]]]].
  - split; [exact Hlo | lra].
  - split; [exact Hhi | lra].
  - split; [apply nonnan_bounded_finite; [exact Nx | lra] | lra].
Qed.

Module QueueFacts.
Import Queue.
Local Open Scope float_scope.

Lemma pos_not_zero s : (0 <? s) = true -> (s =? 0) = false.
Proof.
  intros H. apply ltb_true_iff in H. destruct H as (_ & _ & H).
  destruct (s =? 0) eqn:E; [| reflexivity].
  apply eqb_true_iff in E. destruct E as (_ & _ & E). lra.
Qed.

Lemma rho_of_pos a s :
  (0 <? s) = true ->
  rho_of {| arrival_rate := a; service_rate := s |} = Return (a / s).
Proof.
  intros H. unfold rho_of, Py.truediv. cbn [service_rate arrival_rate].
  rewrite H, (pos_not_zero s H). reflexivity.
Qed.

Lemma rho_of_nonpos a s :
  (0 <? s) = false ->
  rho_of {| arrival_rate := a; service_rate := s |} = Return 0.
Proof. intros H. unfold rho_of. cbn [service_rate]. rewrite H. reflexivity. Qed.

Lemma to_minutes_range w :
  finite (to_minutes w) = true /\ (0 <= val (to_minutes w) <= 300)%R.
Proof.
  unfold to_minutes.
  val_lit 0.0 H0. val_lit 300.0 H300.
  destruct (clamp_range 0.0 300.0 (w * 60.0)) as [Hf Hr];
    [fin_lit | fin_lit | lra |].
  split; [exact Hf | lra].
Qed.

Lemma json_guard_finite w : finite w = true -> json_guard w = w.
Proof.
  intros H. apply finite_iff in H. destruct H as [Hn Hi].
  unfold json_guard, Py.isnan, Py.isinf. rewrite Hn, Hi. reflexivity.
Qed.

(** The [240.0] default of lines 35-36 is dead code: [wait_minutes] is
    always a finite double after line 32. *)
Lemma json_guard_to_minutes w : json_guard (to_minutes w) = to_minutes w.
Proof. apply json_guard_finite, to_minutes_range. Qed.

Lemma clamp_utilization_range rho :
  finite (clamp_utilization rho) = true /\
  (0 <= val (clamp_utilization rho) <= val 0.99)%R.
Proof.
  unfold clamp_utilization.
  val_lit 0.0 H0. val_lit 0.99 H99.
  destruct (clamp_range 0.0 0.99 rho) as [Hf Hr];
    [fin_lit | fin_lit | lra |].
  split; [exact Hf | lra].
Qed.

Lemma clamp_queue_range q :
  finite (clamp_queue q) = true /\ (0 <= val (clamp_queue q) <= 100)%R.
Proof.
  unfold clamp_queue.
  val_lit 0.0 H0. val_lit 100.0 H100.
  destruct (clamp_range 0.0 100.0 (queue_operand q)) as [Hf Hr];
    [fin_lit | fin_lit | lra |].
  split; [exact Hf | lra].
Qed.

Lemma simulate_locals_overload a s :
  (0 <? s) = true -> (0.95 <=? a / s) = true ->
  simulate_locals {| arrival_rate := a; service_rate := s |} =
  Return {| wait_minutes := 300.0;
            utilization := clamp_utilization (a / s);
            queue_length := 50.0 |}.
Proof.
  intros Hs Hrho. unfold simulate_locals.
  rewrite (rho_of_pos a s Hs). cbn [bind]. unfold branch. rewrite Hrho.
  cbn [bind fst snd]. reflexivity.
Qed.

End QueueFacts.

(** *** The smallest doubles, one by one *)

Definition tiny (m : positive) : float := SF2Prim (S754_finite false m emin).

Definition tiny_range : list positive := map Pos.of_nat (seq 1 31).

Lemma tiny_range_complete m : (m < 32)%positive -> In m tiny_range.
Proof.
  intros H. unfold tiny_range. apply in_map_iff.
  exists (Pos.to_nat m). split; [apply Pos2Nat.id |].
  apply in_seq. lia.
Qed.

Lemma tiny_repr x :
  finite x = true -> 0 < val x < val 0x1p-1069%float ->
  exists m, (m < 32)%positive /\ x = tiny m.
Proof.
  intros Hf [H0 H1]. val_lit 0x1p-1069%float HT. rewrite HT in H1. clear HT.
  pose proof (Prim2SF_valid x) as Hv. unfold finite in Hf. unfold val in *.
  destruct (Prim2SF x) as [s | s | | s m e] eqn:E; try discriminate.
  - simpl in H0. lra.
  - cbn [valid_binary] in Hv. cbn [SFord] in H0, H1.
    pose proof (F2R_gt_0 m e) as Hpos.
    destruct s; [simpl in H0; lra |]. cbn [sgn] in *.
    destruct (bounded_inv _ _ Hv) as (He & Hm & Hn). zconst.
    assert (Hemin : e = emin).
    { destruct Hn as [Hn | Hn]; [exact Hn | exfalso].
      unfold F2R in H1.
      assert (Hb : bpow (prec - 1 + e) <= IZR (Zpos m) * bpow e).
      { rewrite bpow_add. pose proof (bpow_gt_0 e). nra. }
      assert (Hb' : bpow (-1069) <= bpow (prec - 1 + e)) by (apply bpow_le; lia).
      revert H1 Hb Hb'. lit_pow. intros. lra. }
    subst e. exists m. split.
    + unfold F2R in H1. change emin with (-1074)%Z in H1.
      assert (Hlt : IZR (Zpos m) < 32) by (revert H1; lit_pow; intros H1; lra).
      apply lt_IZR in Hlt. lia.
    + unfold tiny. rewrite <- E. symmetry. apply SF2Prim_Prim2SF.
Qed.

Module QueueNormal.
Import Queue QueueFacts.
Local Open Scope float_scope.

Definition tiny_ok (i j : positive) : bool :=
  (0.95 <=? tiny i / tiny j) || negb (tiny j * (1 - tiny i / tiny j) =? 0).

Lemma tiny_table :
  forallb (fun i => forallb (tiny_ok i) tiny_range) tiny_range = true.
Proof. vm_compute. reflexivity. Qed.

Lemma tiny_ok_all i j : (i < 32)%positive -> (j < 32)%positive -> tiny_ok i j = true.
Proof.
  intros Hi Hj. pose proof tiny_table as H.
  rewrite forallb_forall in H. specialize (H i (tiny_range_complete i Hi)).
  rewrite forallb_forall in H. exact (H j (tiny_range_complete j Hj)).
Qed.

Lemma val_pos_not_zero x : nonnan x -> (val x <> 0)%R -> (x =? 0) = false.
Proof.
  intros Hn Hx. destruct (x =? 0) eqn:E; [| reflexivity].
  apply eqb_true_iff in E. destruct E as (_ & _ & E).
  val_lit 0 H0. rewrite H0 in E. contradiction.
Qed.

(** With finite rates, a positive service rate and a utilization in
    [[0, 0.95)], neither divisor of lines 28-29 is zero. *)
Lemma normal_divisors a s :
  finite a = true -> finite s = true -> (0 <? s) = true ->
  (0.95 <=? a / s) = false -> (a / s <? 0) = false ->
  finite (a / s) = true /\ (0 <= val (a / s) < val 0.95)%R /\
  finite (1 - a / s) = true /\ (1 - val 0.95 <= val (1 - a / s) <= 1)%R /\
  finite (s * (1 - a / s)) = true /\ (0 < val (s * (1 - a / s)))%R.
Proof.
  intros Fa Fs Hs Hge Hlt.
  apply ltb_true_iff in Hs. destruct Hs as (_ & Ns & Hs).
  val_lit 0 H0. rewrite H0 in Hs.
  val_lit 0.95 H95. val_lit 1 H1'. assert (H1 : val 1 = 1%R) by lra. clear H1'.
  pose proof (div_RN a s Fa Fs ltac:(lra)) as Hrho.
  set (rho := a / s) in *.
  pose proof (RN_nonnan _ _ Hrho) as Nrho.
  apply (leb_false_iff 0.95 rho (finite_nonnan 0.95 ltac:(fin_lit)) Nrho) in Hge.
  apply (ltb_false_iff rho 0 Nrho (finite_nonnan 0 ltac:(fin_lit))) in Hlt.
  rewrite H0 in Hlt.
  pose proof (bpow_gt_0 emax) as Hmax.
  assert (Hbig : (1 < bpow emax)%R).
  { change 1%R with (bpow 0). apply bpow_lt. reflexivity. }
  assert (Frho : finite rho = true).
  { apply nonnan_bounded_finite; [exact Nrho | lra]. }
  pose proof (sub_RN 1 rho ltac:(fin_lit) Frho) as Ht.
  set (t := 1 - rho) in *.
  val_lit (1 - 0.95) Hc.
  destruct (RN_finite_between _ t (1 - 0.95) 1 Ht ltac:(fin_lit) ltac:(fin_lit))
    as [Ft Htr]; [lra |].
  pose proof (mul_RN s t Fs Ft) as Hd.
  pose proof (val_finite_lt _ Fs) as Hsb.
  assert (Hdpos : (0 < val (s * t))%R /\ finite (s * t) = true).
  { destruct (Req_dec (val rho) 0) as [Hz | Hnz].
    - (* rho is a zero: the divisor is s itself *)
      assert (Ht1 : val t = val 1) by (apply (RN_eq _ _ _ Ht); [fin_lit | lra]).
      assert (Hds : val (s * t) = val s).
      { apply (RN_eq _ _ _ Hd Fs). rewrite Ht1, H1. ring. }
      split; [lra |]. apply (RN_finite _ _ Hd). lra.
    - assert (Hfin : finite (s * t) = true).
      { apply (RN_finite _ _ Hd).
        assert (val (s * t) <= val s)%R by (apply (RN_le _ _ _ Hd Fs); nra).
        destruct (RN_sign _ _ Hd) as [Hp _].
        assert (0 <= val (s * t))%R by (apply Hp; nra). lra. }
      split; [| exact Hfin].
      destruct (Rle_or_lt (val 0x1p-1069) (val s)) as [Hbigs | Htiny].
      + val_lit 0x1p-1069 HT. val_lit 0x1p-1074 Hmn.
        assert (val 0x1p-1074 <= val (s * t))%R.
        { apply (RN_ge _ _ _ Hd); [fin_lit |].
          apply Rle_trans with (val 0x1p-1069 * val (1 - 0.95))%R; [| nra].
          rewrite HT, Hmn, Hc. lra. }
        lra.
      + (* both rates are among the 31 smallest doubles *)
        assert (Hapos : (0 < val a)%R).
        { destruct (Rle_or_lt (val a) 0) as [Hle | Hgt]; [| exact Hgt].
          exfalso. destruct (RN_sign _ _ Hrho) as [_ Hneg].
          assert (val rho <= 0)%R; [| lra]. apply Hneg.
          apply Rmult_le_reg_r with (val s); [exact Hs |].
          unfold Rdiv. rewrite Rmult_assoc, Rinv_l by lra. lra. }
        assert (Has : (val a < val s)%R).
        { destruct (Rle_or_lt (val s) (val a)) as [Hle | Hgt]; [| exact Hgt].
          exfalso. assert (val 1 <= val rho)%R; [| lra].
          apply (RN_ge _ _ _ Hrho); [fin_lit |]. rewrite H1.
          apply Rmult_le_reg_r with (val s); [exact Hs |].
          unfold Rdiv. rewrite Rmult_assoc, Rinv_l by lra. lra. }
        destruct (tiny_repr s Fs ltac:(lra)) as (j & Hj & Ej).
        destruct (tiny_repr a Fa ltac:(lra)) as (i & Hi & Ei).
        pose proof (tiny_ok_all i j Hi Hj) as Hok.
        unfold tiny_ok in Hok. rewrite <- Ei, <- Ej in Hok.
        fold rho in Hok. fold t in Hok.
        assert (Hge' : (0.95 <=? rho) = false).
        { apply (leb_false_iff 0.95 rho (finite_nonnan 0.95 ltac:(fin_lit)) Nrho). lra. }
        rewrite Hge' in Hok. cbn [orb] in Hok. apply negb_true_iff in Hok.
        destruct (RN_sign _ _ Hd) as [Hp _].
        assert (Hnn : (0 <= val (s * t))%R) by (apply Hp; nra).
        destruct (Req_dec (val (s * t)) 0) as [Hz' | Hnz']; [| lra].
        exfalso.
        assert ((s * t =? 0) = true); [| congruence].
        apply eqb_true_iff. repeat split.
        * apply finite_nonnan, Hfin.
        * apply finite_nonnan. fin_lit.
        * rewrite H0. exact Hz'. }
  repeat split; try assumption; try lra; apply Hdpos.
Qed.

End QueueNormal.

Module QueueBranches.
Import Queue QueueFacts QueueNormal.
Local Open Scope float_scope.

Lemma eqb_refl_nonnan x : nonnan x -> (x =? x) = true.
Proof. intros H. apply eqb_true_iff. auto. Qed.

Lemma simulate_locals_normal a s :
  finite a = true -> finite s = true -> (0 <? s) = true ->
  (0.95 <=? a / s) = false -> (a / s <? 0) = false ->
  simulate_locals {| arrival_rate := a; service_rate := s |} =
  Return {| wait_minutes := to_minutes (a / s / (s * (1 - a / s)));
            utilization := clamp_utilization (a / s);
            queue_length := clamp_queue (a / s / (1 - a / s)) |}.
Proof.
  intros Fa Fs Hs Hge Hlt.
  destruct (normal_divisors a s Fa Fs Hs Hge Hlt)
    as (Frho & Hrho & Ft & Ht & Fd & Hd).
  val_lit 0.95 H95.
  unfold simulate_locals. rewrite (rho_of_pos a s Hs). cbn [bind].
  unfold branch. rewrite Hge, Hlt. cbn [service_rate]. unfold Py.truediv.
  rewrite (val_pos_not_zero (s * (1 - a / s))) by (try apply finite_nonnan; try assumption; lra).
  rewrite (val_pos_not_zero (1 - a / s)) by (try apply finite_nonnan; try assumption; lra).
  cbn [bind fst snd]. rewrite json_guard_to_minutes. reflexivity.
Qed.

Lemma clamp_utilization_normal rho :
  finite rho = true -> (0 <= val rho < val 0.95)%R ->
  (clamp_utilization rho =? rho) = true.
Proof.
  intros Fr Hr. unfold clamp_utilization.
  val_lit 0.95 H95. val_lit 0.99 H99. val_lit 0.0 H0.
  pose proof (finite_nonnan _ Fr) as Nr.
  destruct (clamp_cases 0.0 0.99 rho ltac:(fin_lit) ltac:(fin_lit) ltac:(lra))
    as [[-> H] | [[-> (_ & H)] | [-> _]]].
  - apply eqb_true_iff. repeat split; [apply finite_nonnan; fin_lit | exact Nr |].
    destruct H as [H | [_ H]].
    + apply is_nan_false_iff in Nr. congruence.
    + lra.
  - lra.
  - apply eqb_refl_nonnan, Nr.
Qed.

Lemma queue_normal rho :
  finite rho = true -> (0 <= val rho < val 0.95)%R ->
  finite (1 - rho) = true -> (1 - val 0.95 <= val (1 - rho) <= 1)%R ->
  finite (rho / (1 - rho)) = true /\
  (0 <= val (rho / (1 - rho)) <= 100)%R /\
  (clamp_queue (rho / (1 - rho)) =? rho / (1 - rho)) = true.
Proof.
  intros Fr Hr Ft Ht.
  val_lit 0.95 H95. val_lit 100.0 H100. val_lit 0.0 H0.
  set (t := 1 - rho) in *.
  assert (Htpos : (0 < val t)%R) by lra.
  pose proof (div_RN rho t Fr Ft ltac:(lra)) as Hq.
  set (q := rho / t) in *.
  assert (Hratio : (0 <= val rho / val t <= 100)%R).
  { split.
    - apply Rmult_le_reg_r with (val t); [exact Htpos |].
      unfold Rdiv. rewrite Rmult_assoc, Rinv_l by lra. lra.
    - apply Rmult_le_reg_r with (val t); [exact Htpos |].
      unfold Rdiv. rewrite Rmult_assoc, Rinv_l by lra. lra. }
  destruct (RN_finite_between _ q 0.0 100.0 Hq ltac:(fin_lit) ltac:(fin_lit) ltac:(lra))
    as [Fq Hqr].
  split; [exact Fq |]. split; [lra |].
  pose proof (finite_nonnan _ Fq) as Nq.
  unfold clamp_queue, queue_operand, Py.isnan.
  rewrite (proj2 (is_nan_false_iff q) Nq). cbn [negb].
  destruct (clamp_cases 0.0 100.0 q ltac:(fin_lit) ltac:(fin_lit) ltac:(lra))
    as [[-> H] | [[-> (_ & H)] | [-> _]]].
  - apply eqb_true_iff. repeat split; [apply finite_nonnan; fin_lit | exact Nq |].
    destruct H as [H | [_ H]].
    + apply is_nan_false_iff in Nq. congruence.
    + lra.
  - lra.
  - apply eqb_refl_nonnan, Nq.
Qed.

Lemma clamp_to_lo lo hi x :
  finite lo = true -> finite hi = true -> (val lo < val hi)%R ->
  nonnan x -> (val x <= val lo)%R -> Py.max lo (Py.min x hi) = lo.
Proof.
  intros Hlo Hhi Hlt Nx Hx.
  destruct (clamp_cases lo hi x Hlo Hhi Hlt)
    as [[H _] | [[_ (_ & H)] | [_ (_ & H)]]]; [exact H | lra | lra].
Qed.

Lemma clamp_utilization_nonpos rho :
  nonnan rho -> (val rho <= 0)%R -> clamp_utilization rho = 0.0.
Proof.
  intros Nr Hr. unfold clamp_utilization. val_lit 0.0 H0. val_lit 0.99 H99.
  apply clamp_to_lo; [fin_lit | fin_lit | lra | exact Nr | lra].
Qed.

(** The normal branch when [rho] is a zero (of either sign): both divisions
    go through as long as the service rate is not zero, and every local
    ends up [0.0]. *)
Lemma branch_zero_rho a s rho :
  finite s = true -> (val s <> 0)%R -> finite rho = true -> (val rho = 0)%R ->
  exists w q,
    branch {| arrival_rate := a; service_rate := s |} rho = Return (w, q) /\
    to_minutes w = 0.0 /\ clamp_queue q = 0.0.
Proof.
  intros Fs Hs Fr Hr.
  val_lit 0.0 H0. val_lit 0.95 H95. val_lit 300.0 H300. val_lit 100.0 H100.
  val_lit 1 H1'. assert (H1 : val 1 = 1%R) by lra. clear H1'.
  val_lit 60.0 H60.
  pose proof (finite_nonnan _ Fr) as Nr.
  assert (Hge : (0.95 <=? rho) = false).
  { apply (leb_false_iff 0.95 rho (finite_nonnan 0.95 ltac:(fin_lit)) Nr). lra. }
  assert (Hlt : (rho <? 0) = false).
  { apply (ltb_false_iff rho 0 Nr (finite_nonnan 0 ltac:(fin_lit))). lra. }
  pose proof (sub_RN 1 rho ltac:(fin_lit) Fr) as Ht.
  set (t := 1 - rho) in *.
  assert (Hval_t : val t = val 1) by (apply (RN_eq _ _ _ Ht); [fin_lit | lra]).
  pose proof (bpow_gt_0 emax) as Hmax.
  assert (Hbig : (1 < bpow emax)%R).
  { change 1%R with (bpow 0). apply bpow_lt. reflexivity. }
  assert (Ft : finite t = true) by (apply (RN_finite _ _ Ht); lra).
  pose proof (mul_RN s t Fs Ft) as Hd.
  set (d := s * t) in *.
  assert (Hval_d : val d = val s).
  { apply (RN_eq _ _ _ Hd Fs). rewrite Hval_t, H1. ring. }
  pose proof (val_finite_lt _ Fs) as Hsb.
  assert (Fd : finite d = true) by (apply (RN_finite _ _ Hd); lra).
  pose proof (div_RN rho d Fr Fd ltac:(lra)) as Hw.
  set (w := rho / d) in *.
  assert (Hval_w : val w = val 0.0).
  { apply (RN_eq _ _ _ Hw); [fin_lit |]. rewrite Hr, H0. unfold Rdiv. ring. }
  assert (Fw : finite w = true) by (apply (RN_finite _ _ Hw); lra).
  pose proof (mul_RN w 60.0 Fw ltac:(fin_lit)) as Hw60.
  assert (Hval_w60 : val (w * 60.0) = val 0.0).
  { apply (RN_eq _ _ _ Hw60); [fin_lit |]. rewrite Hval_w, H0. ring. }
  pose proof (div_RN rho t Fr Ft ltac:(lra)) as Hq.
  set (q := rho / t) in *.
  assert (Hval_q : val q = val 0.0).
  { apply (RN_eq _ _ _ Hq); [fin_lit |]. rewrite Hr, H0. unfold Rdiv. ring. }
  exists w, q. split; [| split].
  - unfold branch. rewrite Hge, Hlt. cbn [service_rate]. unfold Py.truediv.
    fold t. fold d.
    rewrite (val_pos_not_zero d) by (try apply finite_nonnan; try assumption; lra).
    rewrite (val_pos_not_zero t) by (try apply finite_nonnan; try assumption; lra).
    reflexivity.
  - unfold to_minutes.
    apply clamp_to_lo; [fin_lit | fin_lit | lra | exact (RN_nonnan _ _ Hw60) | lra].
  - unfold clamp_queue, queue_operand, Py.isnan.
    rewrite (proj2 (is_nan_false_iff q) (RN_nonnan _ _ Hq)). cbn [negb].
    apply clamp_to_lo; [fin_lit | fin_lit | lra | exact (RN_nonnan _ _ Hq) | lra].
Qed.

Lemma simulate_locals_negative_arrival a s :
  finite a = true -> finite s = true -> (a <? 0) = true -> (0 <? s) = true ->
  simulate_locals {| arrival_rate := a; service_rate := s |} =
  Return {| wait_minutes := 0.0; utilization := 0.0; queue_length := 0.0 |}.
Proof.
  intros Fa Fs Ha Hs.
  pose proof Hs as Hs'. apply ltb_true_iff in Hs'. destruct Hs' as (_ & _ & Hs').
  apply ltb_true_iff in Ha. destruct Ha as (_ & _ & Ha).
  val_lit 0 H0. rewrite H0 in Ha, Hs'. val_lit 0.95 H95.
  pose proof (div_RN a s Fa Fs ltac:(lra)) as Hrho.
  unfold simulate_locals. rewrite (rho_of_pos a s Hs). cbn [bind].
  set (rho := a / s) in *.
  pose proof (RN_nonnan _ _ Hrho) as Nr.
  assert (Hle : (val rho <= 0)%R).
  { destruct (RN_sign _ _ Hrho) as [_ Hneg]. apply Hneg.
    apply Rmult_le_reg_r with (val s); [exact Hs' |].
    unfold Rdiv. rewrite Rmult_assoc, Rinv_l by lra. lra. }
  rewrite (clamp_utilization_nonpos rho Nr Hle).
  destruct (rho <? 0) eqn:Hneg.
  - assert (Hge : (0.95 <=? rho) = false).
    { apply (leb_false_iff 0.95 rho (finite_nonnan 0.95 ltac:(fin_lit)) Nr). lra. }
    unfold branch. rewrite Hge, Hneg. cbn [bind fst snd]. reflexivity.
  - apply (ltb_false_iff rho 0 Nr (finite_nonnan 0 ltac:(fin_lit))) in Hneg.
    rewrite H0 in Hneg.
    pose proof (bpow_gt_0 emax) as Hmax.
    assert (Fr : finite rho = true) by (apply nonnan_bounded_finite; [exact Nr | lra]).
    destruct (branch_zero_rho a s rho Fs ltac:(lra) Fr ltac:(lra))
      as (w & q & -> & Hw & Hq).
    cbn [bind fst snd]. rewrite Hw, Hq. reflexivity.
Qed.

Lemma simulate_locals_negative_service a s :
  finite s = true -> (val s < 0)%R ->
  simulate_locals {| arrival_rate := a; service_rate := s |} =
  Return {| wait_minutes := 0.0; utilization := 0.0; queue_length := 0.0 |}.
Proof.
  intros Fs Hs.
  assert (Hnp : (0 <? s) = false).
  { apply (ltb_false_iff 0 s (finite_nonnan 0 ltac:(fin_lit)) (finite_nonnan _ Fs)).
    val_lit 0 H0. lra. }
  unfold simulate_locals. rewrite (rho_of_nonpos a s Hnp). cbn [bind].
  val_lit 0 H0.
  destruct (branch_zero_rho a s 0 Fs ltac:(lra) ltac:(fin_lit) H0)
    as (w & q & -> & Hw & Hq).
  cbn [bind fst snd]. rewrite Hw, Hq. reflexivity.
Qed.

End QueueBranches.

(** ** round(x, ndigits) *)

Lemma scaled_digits_near m e nd :
  IZR (Py.scaled_digits m e nd) - / 2
    <= F2R m e * IZR (10 ^ Z.of_nat nd)
    <= IZR (Py.scaled_digits m e nd) + / 2.
Proof.
  unfold Py.scaled_digits, F2R.
  set (n := (Zpos m * 10 ^ Z.of_nat nd)%Z).
  assert (Hn : IZR (Zpos m) * IZR (10 ^ Z.of_nat nd) = IZR n)
    by (unfold n; rewrite mult_IZR; reflexivity).
  destruct e as [| p | p].
  - rewrite bpow_0, Rmult_1_r, Hn. lra.
  - rewrite mult_IZR, <- bpow_IZR by lia.
    replace (IZR (Zpos m) * bpow (Zpos p) * IZR (10 ^ Z.of_nat nd))
      with (IZR n * bpow (Zpos p)) by (rewrite <- Hn; ring).
    lra.
  - set (d := (2 ^ Zpos p)%Z).
    assert (Hd : (0 < d)%Z) by (apply Z.pow_pos_nonneg; lia).
    pose proof (Z.div_mod n d ltac:(lia)) as Hdm.
    pose proof (Z.mod_pos_bound n d Hd) as Hr.
    set (q := (n / d)%Z) in *. set (r := (n mod d)%Z) in *.
    assert (Hdr : 0 < IZR d) by (apply IZR_lt; exact Hd).
    assert (Hv : IZR (Zpos m) * bpow (Zneg p) * IZR (10 ^ Z.of_nat nd)
                 = IZR q + IZR r / IZR d).
    { change (Zneg p) with (- Zpos p)%Z. rewrite bpow_opp, bpow_IZR by lia.
      fold d.
      replace (IZR (Zpos m) * / IZR d * IZR (10 ^ Z.of_nat nd))
        with (IZR n / IZR d) by (rewrite <- Hn; field; lra).
      rewrite Hdm, plus_IZR, mult_IZR. field. lra. }
    rewrite Hv.
    assert (H0 : 0 <= IZR r / IZR d < 1).
    { split.
      - apply Rmult_le_reg_r with (IZR d); [exact Hdr |].
        unfold Rdiv. rewrite Rmult_assoc, Rinv_l, Rmult_0_l, Rmult_1_r by lra.
        apply IZR_le. lia.
      - apply Rmult_lt_reg_r with (IZR d); [exact Hdr |].
        unfold Rdiv. rewrite Rmult_assoc, Rinv_l, Rmult_1_l, Rmult_1_r by lra.
        apply IZR_lt. lia. }
    assert (Hhalf : forall c : comparison,
               (2 * r ?= d)%Z = c ->
               match c with
               | Lt => IZR r / IZR d < / 2
               | Eq => IZR r / IZR d = / 2
               | Gt => / 2 < IZR r / IZR d
               end).
    { intros c Hc. destruct (Z.compare_spec (2 * r) d) as [E | L | G]; subst c.
      - rewrite <- E, mult_IZR. field.
        rewrite <- E, mult_IZR in Hdr. lra.
      - apply IZR_lt in L. rewrite mult_IZR in L.
        apply Rmult_lt_reg_r with (IZR d); [exact Hdr |].
        unfold Rdiv. rewrite Rmult_assoc, Rinv_l, Rmult_1_r by lra. lra.
      - apply IZR_lt in G. rewrite mult_IZR in G.
        apply Rmult_lt_reg_r with (IZR d); [exact Hdr |].
        unfold Rdiv. rewrite Rmult_assoc, Rinv_l, Rmult_1_r by lra. lra. }
    specialize (Hhalf _ eq_refl).
    destruct (2 * r ?= d)%Z.
    + destruct (Z.even q); [| rewrite plus_IZR]; lra.
    + lra.
    + rewrite plus_IZR. lra.
Qed.

Lemma Prim2SF_SF2Prim_rounds v r :
  rounds_to v r -> Prim2SF (SF2Prim r) = r.
Proof. intros (Hv & _). apply Prim2SF_SF2Prim. exact Hv. Qed.

(** A non-negative double no larger than [K / 10^ndigits] rounds to a
    double between zero and the double nearest to [K / 10^ndigits]. *)
Lemma round_range x nd K hi :
  finite x = true -> 0 <= val x -> val x * IZR (10 ^ Z.of_nat nd) <= IZR (Zpos K) ->
  SF64div (S754_finite false K 0)
          (S754_finite false (Z.to_pos (10 ^ Z.of_nat nd)) 0) = Prim2SF hi ->
  finite hi = true ->
  finite (Py.round x nd) = true /\ 0 <= val (Py.round x nd) <= val hi.
Proof.
  intros Fx Hx0 HxK Hhi Fhi.
  set (D := Z.to_pos (10 ^ Z.of_nat nd)).
  assert (HD : Zpos D = (10 ^ Z.of_nat nd)%Z).
  { unfold D. apply Z2Pos.id. apply Z.pow_pos_nonneg; lia. }
  assert (HDr : 0 < IZR (Zpos D)) by (apply IZR_lt; lia).
  pose proof (SFdiv_rounds false K 0 false D 0) as HK.
  fold D in Hhi. unfold SF64div in Hhi. rewrite Hhi in HK.
  destruct HK as (_ & _ & HK). cbn [sgn] in HK. unfold F2R in HK.
  rewrite bpow_0, !Rmult_1_r in HK. fold (val hi) in HK.
  pose proof (val_finite_lt _ Fhi) as Hhib.
  assert (Hhi0 : 0 <= val hi).
  { destruct (Rnd_sign _ _ HK) as [Hp _]. apply Hp.
    apply Rmult_le_pos; [apply IZR_le; lia | left; apply Rinv_0_lt_compat; exact HDr]. }
  unfold Py.round. unfold finite, val in *.
  destruct (Prim2SF x) as [s | s | | s m e] eqn:E; try discriminate.
  - rewrite E. cbn [is_fin SFord]. split; [reflexivity | lra].
  - cbn [SFord] in Hx0, HxK. pose proof (F2R_gt_0 m e) as Hpos.
    destruct s; [simpl in Hx0; lra |]. cbn [sgn] in *.
    pose proof (scaled_digits_near m e nd) as [Hlo Hup].
    set (k := Py.scaled_digits m e nd) in *.
    rewrite <- HD in Hlo, Hup.
    assert (Hk0 : (0 <= k)%Z).
    { assert (IZR (-1) < IZR k); [| apply lt_IZR in H; lia].
      pose proof (Rmult_lt_0_compat _ _ Hpos HDr). simpl. lra. }
    assert (HkK : (k <= Zpos K)%Z).
    { assert (IZR k < IZR (Zpos K + 1)); [| apply lt_IZR in H; lia].
      rewrite plus_IZR. rewrite HD in Hlo. lra. }
    destruct k as [| kp | kp]; [| | lia].
    + replace (Prim2SF (SF2Prim (S754_zero false))) with (S754_zero false)
        by (symmetry; apply Prim2SF_SF2Prim; reflexivity).
      cbn [is_fin SFord]. split; [reflexivity | lra].
    + unfold SF64div. fold D.
      pose proof (SFdiv_rounds false kp 0 false D 0) as Hk.
      rewrite (Prim2SF_SF2Prim_rounds _ _ Hk).
      pose proof Hk as (_ & _ & Hk'). cbn [sgn] in Hk'. unfold F2R in Hk'.
      rewrite bpow_0, !Rmult_1_r in Hk'.
      assert (Hle : IZR (Zpos kp) / IZR (Zpos D) <= IZR (Zpos K) / IZR (Zpos D)).
      { apply Rmult_le_compat_r; [left; apply Rinv_0_lt_compat; exact HDr |].
        apply IZR_le. exact HkK. }
      pose proof (Rnd_mono _ _ _ _ Hle Hk' HK) as Hmono.
      destruct (Rnd_sign _ _ Hk') as [Hp _].
      assert (Hnn : 0 <= SFord (SFdiv prec emax (S754_finite false kp 0) (S754_finite false D 0))).
      { apply Hp. apply Rmult_le_pos; [apply IZR_le; lia |].
        left; apply Rinv_0_lt_compat; exact HDr. }
      split; [| lra].
      apply (rounds_to_fin _ _ Hk).
      pose proof (bpow_gt_0 emax). lra.
Qed.

Lemma within_intro lo hi x :
  finite lo = true -> finite hi = true -> finite x = true ->
  val lo <= val x <= val hi -> within lo hi x = true.
Proof.
  intros Flo Fhi Fx [H1 H2]. unfold within. apply andb_true_iff.
  split; apply leb_true_iff; repeat split; try apply finite_nonnan; assumption.
Qed.

Lemma within_elim lo hi x :
  within lo hi x = true -> nonnan x /\ val lo <= val x <= val hi.
Proof.
  unfold within. rewrite andb_true_iff, !leb_true_iff.
  intros [(_ & Nx & H1) (_ & _ & H2)]. split; [exact Nx | lra].
Qed.

Lemma is_finite_finite x : is_finite x = true <-> finite x = true.
Proof.
  unfold is_finite. rewrite negb_true_iff, orb_false_iff. symmetry. apply finite_iff.
Qed.

Module QueueRange.
Import Queue QueueFacts QueueNormal QueueBranches.
Local Open Scope float_scope.

Definition locals_ok (l : Locals) : Prop :=
  finite (wait_minutes l) = true /\ (0 <= val (wait_minutes l) <= 300)%R /\
  finite (utilization l) = true /\ (0 <= val (utilization l) <= val 0.99)%R /\
  finite (queue_length l) = true /\ (0 <= val (queue_length l) <= 100)%R.

Lemma simulate_locals_ok inp l : simulate_locals inp = Return l -> locals_ok l.
Proof.
  unfold simulate_locals, bind.
  destruct (rho_of inp) as [rho |]; [| discriminate].
  destruct (branch inp rho) as [wq |]; [| discriminate].
  intros H. injection H as <-. unfold locals_ok.
  cbn [wait_minutes utilization queue_length].
  rewrite json_guard_to_minutes.
  pose proof (to_minutes_range (fst wq)) as [? ?].
  pose proof (clamp_utilization_range rho) as [? ?].
  pose proof (clamp_queue_range (snd wq)) as [? ?].
  repeat split; try assumption; lra.
Qed.

Lemma report_ok l :
  locals_ok l ->
  within 0 300 (avg_wait_time_min (report l)) = true /\
  within 0 0.99 (m_utilization (report l)) = true /\
  within 0 100 (avg_queue_length (report l)) = true /\
  is_finite (avg_wait_time_min (report l)) = true /\
  is_finite (m_utilization (report l)) = true /\
  is_finite (avg_queue_length (report l)) = true.
Proof.
  intros (Fw & Hw & Fu & Hu & Fq & Hq).
  unfold report. cbn [avg_wait_time_min m_utilization avg_queue_length].
  val_lit 0 H0. val_lit 300 H300. val_lit 0.99 H99. val_lit 100 H100.
  destruct (round_range (wait_minutes l) 2 30000 300 Fw) as [Fw' Hw'];
    [lra | simpl; lra | vm_compute; reflexivity | fin_lit |].
  destruct (round_range (utilization l) 3 990 0.99 Fu) as [Fu' Hu'];
    [lra | simpl; lra | vm_compute; reflexivity | fin_lit |].
  destruct (round_range (queue_length l) 2 10000 100 Fq) as [Fq' Hq'];
    [lra | simpl; lra | vm_compute; reflexivity | fin_lit |].
  repeat split;
    try (apply within_intro; [fin_lit | fin_lit | assumption | lra]);
    apply is_finite_finite; assumption.
Qed.

End QueueRange.

Module TrafficFacts.
Import Traffic.
Local Open Scope float_scope.

(** Line 14, inner part: [min(1.0, max(0.0, density))]. *)
Definition occupancy (d : float) : float := Py.min 1.0 (Py.max 0.0 d).

Lemma occupancy_cases d :
  (occupancy d = 0.0 /\ (is_nan d = true \/ (nonnan d /\ val d <= 0)%R)) \/
  (occupancy d = 1.0 /\ nonnan d /\ (1 <= val d)%R) \/
  (occupancy d = d /\ nonnan d /\ (0 < val d < 1)%R).
Proof.
  unfold occupancy, Py.min, Py.max.
  val_lit 0.0 H0. val_lit 1.0 H1'. assert (H1 : val 1.0 = 1%R) by lra. clear H1'.
  destruct (0.0 <? d) eqn:E0.
  - apply ltb_true_iff in E0. destruct E0 as (_ & Nd & Hd).
    destruct (d <? 1.0) eqn:E1.
    + apply ltb_true_iff in E1. destruct E1 as (_ & _ & Hd1).
      right; right. repeat split; try assumption; lra.
    + apply (ltb_false_iff d 1.0 Nd (finite_nonnan 1.0 ltac:(fin_lit))) in E1.
      right; left. repeat split; try assumption; lra.
  - left. split; [reflexivity |].
    destruct (nonnan_dec d) as [Nd | Nd]; [right | left; exact Nd].
    apply (ltb_false_iff 0.0 d (finite_nonnan 0.0 ltac:(fin_lit)) Nd) in E0.
    split; [exact Nd | lra].
Qed.

Lemma occupancy_range d :
  finite (occupancy d) = true /\ (0 <= val (occupancy d) <= 1)%R.
Proof.
  val_lit 0.0 H0. val_lit 1.0 H1'. assert (H1 : val 1.0 = 1%R) by lra. clear H1'.
  pose proof (bpow_gt_0 emax) as Hmax.
  assert (Hbig : (1 < bpow emax)%R).
  { change 1%R with (bpow 0). apply bpow_lt. reflexivity. }
  destruct (occupancy_cases d) as [[-> _] | [[-> _] | [-> [Nd Hd]]]].
  - split; [fin_lit | lra].
  - split; [fin_lit | lra].
  - split; [apply nonnan_bounded_finite; [exact Nd | lra] | lra].
Qed.

Definition speed_of (d : float) : float := Py.max 5.0 (60.0 * (1.0 - occupancy d)).

Lemma simulate_speed inp : avg_speed_kmh (simulate inp) = speed_of (density inp).
Proof. reflexivity. Qed.

Lemma simulate_throughput inp :
  throughput_veh_per_hr (simulate inp) = avg_speed_kmh (simulate inp) * 10.0.
Proof. reflexivity. Qed.

Lemma free_flow_RN d :
  finite (1.0 - occupancy d) = true /\ (0 <= val (1.0 - occupancy d) <= 1)%R /\
  RN (1 - val (occupancy d)) (1.0 - occupancy d).
Proof.
  destruct (occupancy_range d) as [Fm Hm].
  val_lit 0.0 H0. val_lit 1.0 H1'. assert (H1 : val 1.0 = 1%R) by lra. clear H1'.
  pose proof (sub_RN 1.0 (occupancy d) ltac:(fin_lit) Fm) as Ht.
  rewrite H1 in Ht.
  destruct (RN_finite_between _ _ 0.0 1.0 Ht ltac:(fin_lit) ltac:(fin_lit) ltac:(lra))
    as [Ft Htr].
  split; [exact Ft |]. split; [lra | exact Ht].
Qed.

Lemma raw_speed_RN d :
  finite (60.0 * (1.0 - occupancy d)) = true /\
  (0 <= val (60.0 * (1.0 - occupancy d)) <= 60)%R /\
  RN (60 * val (1.0 - occupancy d)) (60.0 * (1.0 - occupancy d)).
Proof.
  destruct (free_flow_RN d) as (Ft & Htr & _).
  val_lit 0.0 H0. val_is 60.0 60%R H60.
  pose proof (mul_RN 60.0 (1.0 - occupancy d) ltac:(fin_lit) Ft) as Hy.
  rewrite H60 in Hy.
  destruct (RN_finite_between _ _ 0.0 60.0 Hy ltac:(fin_lit) ltac:(fin_lit) ltac:(lra))
    as [Fy Hyr].
  split; [exact Fy |]. split; [lra | exact Hy].
Qed.

Lemma speed_of_val d :
  finite (speed_of d) = true /\
  val (speed_of d) = Rmax 5 (val (60.0 * (1.0 - occupancy d))).
Proof.
  destruct (raw_speed_RN d) as (Fy & Hyr & _).
  unfold speed_of, Py.max. val_is 5.0 5%R H5.
  destruct (5.0 <? 60.0 * (1.0 - occupancy d)) eqn:E.
  - apply ltb_true_iff in E. destruct E as (_ & _ & E).
    split; [exact Fy |]. rewrite Rmax_right; lra.
  - apply (ltb_false_iff _ _ (finite_nonnan 5.0 ltac:(fin_lit)) (finite_nonnan _ Fy)) in E.
    split; [fin_lit |]. rewrite Rmax_left; lra.
Qed.

Lemma speed_of_range d :
  finite (speed_of d) = true /\ (5 <= val (speed_of d) <= 60)%R.
Proof.
  destruct (speed_of_val d) as [F ->]. destruct (raw_speed_RN d) as (_ & Hyr & _).
  split; [exact F |]. split; [apply Rmax_l | apply Rmax_lub; lra].
Qed.

Lemma throughput_range d :
  finite (speed_of d * 10.0) = true /\ (50 <= val (speed_of d * 10.0) <= 600)%R.
Proof.
  destruct (speed_of_range d) as [Fs Hs].
  val_is 10.0 10%R H10. val_is 50.0 50%R H50. val_is 600.0 600%R H600.
  pose proof (mul_RN (speed_of d) 10.0 Fs ltac:(fin_lit)) as Ht. rewrite H10 in Ht.
  destruct (RN_finite_between _ _ 50.0 600.0 Ht ltac:(fin_lit) ltac:(fin_lit) ltac:(lra))
    as [Ft Htr].
  split; [exact Ft | lra].
Qed.

End TrafficFacts.

Module ResourceFacts.
Import Resource.
Local Open Scope float_scope.

(** The first integer magnitude that [float(n)] cannot represent:
    [2^1024 - 2^970], halfway between the largest double and [2^1024]. *)
Definition int_overflow : Z := (2 ^ 1024 - 2 ^ 970)%Z.

Lemma normalize_rounds n : rounds_to (IZR n) (binary_normalize prec emax n 0 false).
Proof.
  pose proof (binary_normalize_rounds n 0 false) as H.
  rewrite bpow_0, Rmult_1_r in H. exact H.
Qed.

Lemma normalize_max :
  binary_normalize prec emax (int_overflow - 1) 0 false
  = S754_finite false 9007199254740991 971.
Proof. vm_compute. reflexivity. Qed.

Lemma normalize_min :
  binary_normalize prec emax (- (int_overflow - 1)) 0 false
  = S754_finite true 9007199254740991 971.
Proof. vm_compute. reflexivity. Qed.

Lemma normalize_over :
  binary_normalize prec emax int_overflow 0 false = S754_infinity false.
Proof. vm_compute. reflexivity. Qed.

Lemma normalize_under :
  binary_normalize prec emax (- int_overflow) 0 false = S754_infinity true.
Proof. vm_compute. reflexivity. Qed.

Lemma max_double_lt :
  (F2R 9007199254740991 971 < bpow emax)%R.
Proof. apply bounded_lt_emax. vm_compute. reflexivity. Qed.

(** [float(n)] succeeds exactly on the integers of magnitude below
    [int_overflow], and is then the double nearest to [n]. *)
Lemma float_of_int_in_range n :
  (Z.abs n < int_overflow)%Z ->
  exists f, Py.float_of_int n = Return f /\ finite f = true /\ RN (IZR n) f.
Proof.
  intros Hn.
  pose proof (normalize_rounds n) as Hr.
  pose proof (normalize_rounds (int_overflow - 1)) as Hmax.
  pose proof (normalize_rounds (- (int_overflow - 1))) as Hmin.
  rewrite normalize_max in Hmax. rewrite normalize_min in Hmin.
  destruct Hmax as (_ & _ & Hmax). destruct Hmin as (_ & _ & Hmin).
  cbn [SFord sgn] in Hmax, Hmin.
  pose proof Hr as (Hv & Hnn & Hrnd).
  assert (Hup : (SFord (binary_normalize prec emax n 0 false)
                 <= F2R 9007199254740991 971)%R).
  { apply (Rnd_mono (IZR n) _ (IZR (int_overflow - 1)) _);
      [apply IZR_le; lia | exact Hrnd | exact Hmax]. }
  assert (Hlo : (- F2R 9007199254740991 971
                 <= SFord (binary_normalize prec emax n 0 false))%R).
  { apply (Rnd_mono (IZR (- (int_overflow - 1))) _ (IZR n) _);
      [apply IZR_le; lia | exact Hmin | exact Hrnd]. }
  pose proof max_double_lt as Hlt.
  assert (Hfin : is_fin (binary_normalize prec emax n 0 false) = true).
  { apply (rounds_to_fin _ _ Hr). lra. }
  unfold Py.float_of_int.
  exists (SF2Prim (binary_normalize prec emax n 0 false)).
  assert (Hback : Prim2SF (SF2Prim (binary_normalize prec emax n 0 false))
                  = binary_normalize prec emax n 0 false)
    by (apply Prim2SF_SF2Prim; exact Hv).
  split; [| split].
  - destruct (binary_normalize prec emax n 0 false); try reflexivity; discriminate.
  - unfold finite. rewrite Hback. exact Hfin.
  - unfold RN. rewrite Hback. exact Hr.
Qed.

Lemma float_of_int_overflow n :
  (int_overflow <= Z.abs n)%Z -> Py.float_of_int n = Raise OverflowError.
Proof.
  intros Hn.
  pose proof (normalize_rounds n) as (Hv & Hnn & Hrnd).
  pose proof (normalize_rounds int_overflow) as (_ & _ & Hover).
  pose proof (normalize_rounds (- int_overflow)) as (_ & _ & Hunder).
  rewrite normalize_over in Hover. rewrite normalize_under in Hunder.
  cbn [SFord sgn] in Hover, Hunder.
  unfold Py.float_of_int.
  destruct (Z_le_gt_dec 0 n) as [Hpos | Hneg].
  - assert (Hge : (bpow emax <= SFord (binary_normalize prec emax n 0 false))%R).
    { apply (Rnd_mono (IZR int_overflow) _ (IZR n) _);
      [apply IZR_le; lia | exact Hover | exact Hrnd]. }
    destruct (binary_normalize prec emax n 0 false) as [s | s | | s m e];
      try reflexivity; try contradiction.
    + cbn [SFord] in Hge. pose proof (bpow_gt_0 emax). lra.
    + pose proof (SFord_fin_lt (S754_finite s m e) Hv eq_refl). lra.
  - assert (Hle : (SFord (binary_normalize prec emax n 0 false) <= - bpow emax)%R).
    { apply (Rnd_mono (IZR n) _ (IZR (- int_overflow)) _);
      [apply IZR_le; lia | exact Hrnd | exact Hunder]. }
    destruct (binary_normalize prec emax n 0 false) as [s | s | | s m e];
      try reflexivity; try contradiction.
    + cbn [SFord] in Hle. pose proof (bpow_gt_0 emax). lra.
    + pose proof (SFord_fin_lt (S754_finite s m e) Hv eq_refl). lra.
Qed.

(** Line 15 on the converted operand. *)
Definition satisfaction_of (f : float) : float := Py.min 1.0 (0.5 + f / 100.0).

Lemma simulate_in_range n :
  (Z.abs n < int_overflow)%Z ->
  exists f, Py.float_of_int n = Return f /\ finite f = true /\ RN (IZR n) f /\
    simulate {| staff := n |} =
    Return {| coverage_units := f * 0.8; satisfaction := satisfaction_of f |}.
Proof.
  intros Hn. destruct (float_of_int_in_range n Hn) as (f & Hf & Ff & Hr).
  exists f. split; [exact Hf |]. split; [exact Ff |]. split; [exact Hr |].
  unfold simulate. cbn [staff]. rewrite Hf. cbn [bind]. reflexivity.
Qed.







End ResourceFacts.

(** ** NaN and infinite operands *)

Lemma sub_nan_r x y : is_nan y = true -> is_nan (x - y)%float = true.
Proof.
  rewrite !is_nan_true_iff, sub_spec. intros ->.
  unfold SF64sub. destruct (Prim2SF x); reflexivity.
Qed.

Lemma mul_nan_r x y : is_nan y = true -> is_nan (x * y)%float = true.
Proof.
  rewrite !is_nan_true_iff, mul_spec. intros ->.
  unfold SF64mul. destruct (Prim2SF x); reflexivity.
Qed.

Lemma mul_nan_l x y : is_nan x = true -> is_nan (x * y)%float = true.
Proof.
  rewrite !is_nan_true_iff, mul_spec. intros ->. reflexivity.
Qed.

Lemma div_nan_l x y : is_nan x = true -> is_nan (x / y)%float = true.
Proof.
  rewrite !is_nan_true_iff, div_spec. intros ->. reflexivity.
Qed.

Lemma div_nan_r x y : is_nan y = true -> is_nan (x / y)%float = true.
Proof.
  rewrite !is_nan_true_iff, div_spec. intros ->.
  unfold SF64div. destruct (Prim2SF x); reflexivity.
Qed.

Lemma nan_not_zero x : is_nan x = true -> (x =? 0)%float = false.
Proof.
  intros H. destruct (x =? 0)%float eqn:E; [| reflexivity].
  apply eqb_true_iff in E. destruct E as (N & _).
  apply is_nan_false_iff in N. congruence.
Qed.


Lemma nan_leb_r c x : is_nan x = true -> (c <=? x)%float = false.
Proof.
  intros H. destruct (c <=? x)%float eqn:E; [| reflexivity].
  apply leb_true_iff in E. destruct E as (_ & N & _).
  apply is_nan_false_iff in N. congruence.
Qed.

Lemma nan_ltb_l x c : is_nan x = true -> (x <? c)%float = false.
Proof.
  intros H. destruct (x <? c)%float eqn:E; [| reflexivity].
  apply ltb_true_iff in E. destruct E as (N & _).
  apply is_nan_false_iff in N. congruence.
Qed.

Lemma nan_ltb_r c x : is_nan x = true -> (c <? x)%float = false.
Proof.
  intros H. destruct (c <? x)%float eqn:E; [| reflexivity].
  apply ltb_true_iff in E. destruct E as (_ & N & _).
  apply is_nan_false_iff in N. congruence.
Qed.

(** The three kinds of double. *)
Lemma float_kind x :
  is_nan x = true \/ (exists s, Prim2SF x = S754_infinity s) \/ finite x = true.
Proof.
  unfold finite. destruct (Prim2SF x) as [s | s | | s m e] eqn:E.
  - right; right; reflexivity.
  - right; left; eauto.
  - left. apply is_nan_true_iff. exact E.
  - right; right; reflexivity.
Qed.

Lemma mul_inf_l x y s :
  Prim2SF x = S754_infinity s -> finite y = true -> (val y <> 0)%R ->
  exists s', Prim2SF (x * y)%float = S754_infinity s'.
Proof.
  intros Hx Fy Hy. rewrite mul_spec, Hx. unfold finite, val in *.
  destruct (Prim2SF y) as [sy | sy | | sy my ey]; try discriminate.
  - simpl in Hy. lra.
  - eexists. reflexivity.
Qed.

Lemma inf_not_zero x s : Prim2SF x = S754_infinity s -> (x =? 0)%float = false.
Proof.
  intros H. destruct (x =? 0)%float eqn:E; [| reflexivity].
  apply eqb_true_iff in E. destruct E as (_ & _ & E).
  val_lit 0%float H0. unfold val in E. rewrite H in E. cbn [SFord] in E.
  pose proof (bpow_gt_0 emax). destruct s; simpl in E; lra.
Qed.

Lemma div_by_inf x y s :
  finite x = true -> Prim2SF y = S754_infinity s ->
  finite (x / y)%float = true /\ val (x / y)%float = 0%R.
Proof.
  intros Fx Hy. unfold finite, val in *. rewrite div_spec, Hy.
  destruct (Prim2SF x) as [sx | sx | | sx mx ex]; try discriminate;
    split; reflexivity.
Qed.

Lemma div_inf_by_fin x y s :
  Prim2SF x = S754_infinity s -> finite y = true ->
  exists s', Prim2SF (x / y)%float = S754_infinity s'.
Proof.
  intros Hx Fy. unfold finite in *. rewrite div_spec, Hx.
  destruct (Prim2SF y) as [sy | sy | | sy my ey]; try discriminate;
    eexists; reflexivity.
Qed.

Lemma div_inf_by_inf x y s s' :
  Prim2SF x = S754_infinity s -> Prim2SF y = S754_infinity s' ->
  is_nan (x / y)%float = true.
Proof.
  intros Hx Hy. apply is_nan_true_iff. rewrite div_spec, Hx, Hy. reflexivity.
Qed.

Lemma zero_val_iff x : (x =? 0)%float = true <-> nonnan x /\ val x = 0%R.
Proof.
  rewrite eqb_true_iff. val_lit 0%float H0. rewrite H0.
  split; [intros (N & _ & E); auto | intros [N E]; repeat split; auto].
  apply finite_nonnan. fin_lit.
Qed.

Module QueueTotal.
Import Queue QueueFacts QueueNormal QueueBranches QueueRange.
Local Open Scope float_scope.

Lemma one_minus_rho rho :
  finite rho = true -> (0 <= val rho < val 0.95)%R ->
  finite (1 - rho) = true /\ (1 - val 0.95 <= val (1 - rho) <= 1)%R.
Proof.
  intros Fr Hr. val_lit 0.95 H95. val_is 1 1%R H1. val_lit (1 - 0.95) Hc.
  pose proof (sub_RN 1 rho ltac:(fin_lit) Fr) as Ht.
  destruct (RN_finite_between _ (1 - rho) (1 - 0.95) 1 Ht ltac:(fin_lit) ltac:(fin_lit))
    as [Ft Htr]; [lra |].
  split; [exact Ft | lra].
Qed.

Lemma clamp_nan lo hi x :
  is_nan x = true -> Py.max lo (Py.min x hi) = lo.
Proof.
  intros H. unfold Py.max, Py.min.
  rewrite (nan_ltb_r hi x H), (nan_ltb_r lo x H). reflexivity.
Qed.

(** In the normal branch [rho] is NaN or a finite double in [[0, 0.95)]. *)
Lemma normal_rho rho :
  (0.95 <=? rho) = false -> (rho <? 0) = false ->
  is_nan rho = true \/ (finite rho = true /\ (0 <= val rho < val 0.95)%R).
Proof.
  intros Hge Hlt. destruct (nonnan_dec rho) as [Nr | Nr]; [right | left; exact Nr].
  apply (leb_false_iff 0.95 rho (finite_nonnan 0.95 ltac:(fin_lit)) Nr) in Hge.
  apply (ltb_false_iff rho 0 Nr (finite_nonnan 0 ltac:(fin_lit))) in Hlt.
  val_lit 0 H0. val_lit 0.95 H95. rewrite H0 in Hlt.
  pose proof (bpow_gt_0 emax) as Hmax.
  assert (Hbig : (1 < bpow emax)%R).
  { change 1%R with (bpow 0). apply bpow_lt. reflexivity. }
  split; [apply nonnan_bounded_finite; [exact Nr | lra] | lra].
Qed.


Lemma branch_nan_rho inp rho :
  is_nan rho = true ->
  branch inp rho =
  Return (rho / (service_rate inp * (1 - rho)), rho / (1 - rho)).
Proof.
  intros Nr. unfold branch, Py.truediv.
  rewrite (nan_leb_r 0.95 rho Nr), (nan_ltb_l rho 0 Nr).
  rewrite (nan_not_zero _ (mul_nan_r (service_rate inp) _ (sub_nan_r 1 rho Nr))).
  rewrite (nan_not_zero _ (sub_nan_r 1 rho Nr)).
  reflexivity.
Qed.

(** A NaN utilization (a NaN arrival rate, or infinity over infinity) gives
    wait 0, utilization 0 and the default queue length 50. *)
Lemma simulate_locals_nan_rho inp rho :
  rho_of inp = Return rho -> is_nan rho = true ->
  simulate_locals inp =
  Return {| wait_minutes := 0.0; utilization := 0.0; queue_length := 50.0 |}.
Proof.
  intros Hrho Nr. unfold simulate_locals. rewrite Hrho. cbn [bind].
  rewrite (branch_nan_rho inp rho Nr). cbn [bind fst snd].
  assert (Hw : to_minutes (rho / (service_rate inp * (1 - rho))) = 0.0).
  { unfold to_minutes. apply clamp_nan. apply mul_nan_l, div_nan_l, Nr. }
  assert (Hu : clamp_utilization rho = 0.0) by (apply clamp_nan, Nr).
  assert (Hq : clamp_queue (rho / (1 - rho)) = 50.0).
  { unfold clamp_queue, queue_operand, Py.isnan.
    rewrite (div_nan_l rho (1 - rho) Nr). reflexivity. }
  rewrite Hw, Hu, Hq. reflexivity.
Qed.

Lemma branch_zero_rho_inf a s rho b :
  Prim2SF s = S754_infinity b -> finite rho = true -> (val rho = 0)%R ->
  exists wq, branch {| arrival_rate := a; service_rate := s |} rho = Return wq.
Proof.
  intros Hs Fr Hr.
  val_lit 0.0 H0. val_lit 0.95 H95. val_is 1 1%R H1.
  pose proof (finite_nonnan _ Fr) as Nr.
  assert (Hge : (0.95 <=? rho) = false).
  { apply (leb_false_iff 0.95 rho (finite_nonnan 0.95 ltac:(fin_lit)) Nr). lra. }
  assert (Hlt : (rho <? 0) = false).
  { apply (ltb_false_iff rho 0 Nr (finite_nonnan 0 ltac:(fin_lit))). lra. }
  destruct (one_minus_rho rho Fr ltac:(lra)) as [Ft Ht].
  destruct (mul_inf_l s (1 - rho) b Hs Ft ltac:(lra)) as [b' Hd].
  unfold branch, Py.truediv. rewrite Hge, Hlt. cbn [service_rate].
  rewrite (inf_not_zero _ _ Hd).
  rewrite (val_pos_not_zero (1 - rho) (finite_nonnan _ Ft) ltac:(lra)).
  eexists. reflexivity.
Qed.

(** Every request whose service rate is not zero is answered, whatever
    doubles it holds (NaN and the infinities included). *)
Lemma simulate_locals_total a s :
  (s =? 0) = false ->
  exists l, simulate_locals {| arrival_rate := a; service_rate := s |} = Return l.
Proof.
  intros Hs0.
  destruct (0 <? s) eqn:Hs.
  - (* rho = a / s *)
    pose proof (rho_of_pos a s Hs) as Hrho.
    destruct (0.95 <=? a / s) eqn:Hge.
    { eexists. apply simulate_locals_overload; assumption. }
    destruct (a / s <? 0) eqn:Hlt.
    { unfold simulate_locals. rewrite Hrho. cbn [bind].
      unfold branch. rewrite Hge, Hlt. cbn [bind]. eexists. reflexivity. }
    destruct (normal_rho (a / s) Hge Hlt) as [Nr | [Fr Hr]].
    { eexists. apply (simulate_locals_nan_rho _ _ Hrho Nr). }
    destruct (float_kind s) as [Ns | [[b Is] | Fs]].
    + apply ltb_true_iff in Hs. destruct Hs as (_ & Ns' & _).
      apply is_nan_false_iff in Ns'. congruence.
    + (* an infinite service rate: rho is a zero *)
      destruct (float_kind a) as [Na | [[b' Ia] | Fa]].
      * pose proof (div_nan_l a s Na) as Hn. apply finite_nonnan in Fr.
        apply is_nan_false_iff in Fr. congruence.
      * pose proof (div_inf_by_inf a s _ _ Ia Is) as Hn. apply finite_nonnan in Fr.
        apply is_nan_false_iff in Fr. congruence.
      * destruct (div_by_inf a s b Fa Is) as [_ Hz].
        destruct (branch_zero_rho_inf a s (a / s) b Is Fr Hz) as [wq Hwq].
        unfold simulate_locals. rewrite Hrho. cbn [bind]. rewrite Hwq. cbn [bind].
        eexists. reflexivity.
    + destruct (float_kind a) as [Na | [[b' Ia] | Fa]].
      * pose proof (div_nan_l a s Na) as Hn. apply finite_nonnan in Fr.
        apply is_nan_false_iff in Fr. congruence.
      * destruct (div_inf_by_fin a s b' Ia Fs) as [b'' Hinf].
        unfold finite in Fr. rewrite Hinf in Fr. discriminate.
      * eexists. apply simulate_locals_normal; assumption.
  - (* rho = 0.0 *)
    pose proof (rho_of_nonpos a s Hs) as Hrho.
    destruct (float_kind s) as [Ns | [[b Is] | Fs]].
    + unfold simulate_locals. rewrite Hrho. cbn [bind].
      unfold branch, Py.truediv. cbn [service_rate].
      change (0.95 <=? 0) with false. change (0 <? 0) with false.
      change (1 - 0) with 1. change (1 =? 0) with false.
      rewrite (nan_not_zero _ (mul_nan_l s 1 Ns)). cbn [bind]. eexists. reflexivity.
    + unfold simulate_locals. rewrite Hrho. cbn [bind].
      unfold branch, Py.truediv. cbn [service_rate].
      change (0.95 <=? 0) with false. change (0 <? 0) with false.
      change (1 - 0) with 1. change (1 =? 0) with false.
      destruct (mul_inf_l s 1 b Is ltac:(fin_lit)) as [b' Hd].
      { val_is 1 1%R H1. lra. }
      rewrite (inf_not_zero _ _ Hd). cbn [bind]. eexists. reflexivity.
    + eexists. apply simulate_locals_negative_service; [exact Fs |].
      pose proof (finite_nonnan _ Fs) as Ns.
      apply (ltb_false_iff 0 s (finite_nonnan 0 ltac:(fin_lit)) Ns) in Hs.
      val_lit 0 H0. rewrite H0 in Hs.
      destruct (Req_dec (val s) 0) as [Hz | Hnz]; [| lra].
      exfalso. assert ((s =? 0) = true); [| congruence].
      apply zero_val_iff. auto.
Qed.

Lemma simulate_locals_zero_service a s :
  (s =? 0) = true ->
  simulate_locals {| arrival_rate := a; service_rate := s |} = Raise ZeroDivisionError.
Proof.
  intros Hs0. pose proof Hs0 as Hz. apply zero_val_iff in Hz. destruct Hz as [Ns Hz].
  assert (Hs : (0 <? s) = false).
  { apply (ltb_false_iff 0 s (finite_nonnan 0 ltac:(fin_lit)) Ns).
    val_lit 0 H0. lra. }
  assert (Fs : finite s = true).
  { apply nonnan_bounded_finite; [exact Ns |]. pose proof (bpow_gt_0 emax). lra. }
  unfold simulate_locals. rewrite (rho_of_nonpos a s Hs). cbn [bind].
  unfold branch, Py.truediv. cbn [service_rate].
  change (0.95 <=? 0) with false. change (0 <? 0) with false.
  change (1 - 0) with 1.
  pose proof (mul_RN s 1 Fs ltac:(fin_lit)) as Hd.
  assert (Hdz : (s * 1 =? 0) = true).
  { apply zero_val_iff. split; [exact (RN_nonnan _ _ Hd) |].
    val_lit 0 H0. rewrite <- H0.
    apply (RN_eq _ _ _ Hd); [fin_lit |]. rewrite Hz, H0. ring. }
  rewrite Hdz. reflexivity.
Qed.

End QueueTotal.

(** * Part 4: the specification's claims

    ** The queue simulator *)

Module QueueSpec.
Import Queue QueueFacts QueueNormal QueueBranches QueueRange QueueTotal.
Local Open Scope float_scope.

Lemma report_zeros :
  report {| wait_minutes := 0; utilization := 0; queue_length := 0 |} =
  {| avg_wait_time_min := 0; m_utilization := 0; avg_queue_length := 0 |}.
Proof. vm_compute. reflexivity. Qed.

Lemma round_300 : Py.round 300 2 = 300.
Proof. vm_compute. reflexivity. Qed.

Lemma round_50 : Py.round 50 2 = 50.
Proof. vm_compute. reflexivity. Qed.

Lemma simulate_of_locals inp l :
  simulate_locals inp = Return l -> simulate inp = Return (report l).
Proof. intros H. unfold simulate. rewrite H. reflexivity. Qed.

(** C1 (as the code behaves): at [arrival_rate = 19], [service_rate = 20]
    the overload branch is taken, [wait = 240.0] is multiplied by 60 on
    line 32 and capped, so the wait returned is 300.0 minutes, not 240.0;
    utilization is 0.95 and the queue length 50.0. *)
Theorem overload_19_20_returns_300 :
  simulate_locals {| arrival_rate := 19; service_rate := 20 |} =
    Return {| wait_minutes := 300; utilization := 0.95; queue_length := 50 |} /\
  simulate {| arrival_rate := 19; service_rate := 20 |} =
    Return {| avg_wait_time_min := 300; m_utilization := 0.95;
              avg_queue_length := 50 |}.
Proof. split; vm_compute; reflexivity. Qed.

(** C2 (as the code behaves): [simulate] is not total; at
    [arrival_rate = 5], [service_rate = 0] line 28 divides by
    [0 * (1 - 0.0)] and raises [ZeroDivisionError]. *)
Theorem zero_service_rate_raises :
  simulate {| arrival_rate := 5; service_rate := 0 |} = Raise ZeroDivisionError.
Proof. vm_compute. reflexivity. Qed.

(** C3 (as the code behaves): with a service rate of zero (of either sign)
    no metrics are returned, whatever the arrival rate: the guard of
    line 16 sets [rho = 0.0] and line 28 then divides by zero. *)
Theorem zero_service_rate_any_arrival (a : float) :
  simulate {| arrival_rate := a; service_rate := 0 |} = Raise ZeroDivisionError /\
  simulate {| arrival_rate := a; service_rate := -0 |} = Raise ZeroDivisionError.
Proof.
  split; unfold simulate;
    rewrite simulate_locals_zero_service by reflexivity; reflexivity.
Qed.

(** C4: for finite rates with [service_rate > 0] and
    [0 <= rho < 0.95], [rho = arrival_rate / service_rate], the request is
    answered; the wait is [rho / (service_rate * (1 - rho)) * 60] clamped to
    [[0, 300]], the utilization equals [rho] and the queue length equals
    [rho / (1 - rho)] (both clamps are the identity), all in binary64
    arithmetic; the response rounds them to 2, 3 and 2 decimals. *)
Theorem normal_case_closed_form (a s : float) :
  is_finite a = true -> is_finite s = true ->
  (0 <? s) = true -> (0 <=? a / s) = true -> (a / s <? 0.95) = true ->
  exists l,
    simulate_locals {| arrival_rate := a; service_rate := s |} = Return l /\
    wait_minutes l = Py.max 0 (Py.min (a / s / (s * (1 - a / s)) * 60) 300) /\
    (utilization l =? a / s) = true /\
    (queue_length l =? a / s / (1 - a / s)) = true /\
    simulate {| arrival_rate := a; service_rate := s |} =
      Return {| avg_wait_time_min := Py.round (wait_minutes l) 2;
                m_utilization := Py.round (utilization l) 3;
                avg_queue_length := Py.round (queue_length l) 2 |}.
Proof.
  intros Fa Fs Hs H0 H95.
  apply is_finite_finite in Fa, Fs.
  apply leb_true_iff in H0. destruct H0 as (_ & Nr & H0).
  apply ltb_true_iff in H95. destruct H95 as (_ & _ & H95).
  val_lit 0 Hz. rewrite Hz in H0.
  assert (Hge : (0.95 <=? a / s) = false).
  { apply (leb_false_iff 0.95 (a / s) (finite_nonnan 0.95 ltac:(fin_lit)) Nr). lra. }
  assert (Hlt : (a / s <? 0) = false).
  { apply (ltb_false_iff (a / s) 0 Nr (finite_nonnan 0 ltac:(fin_lit))). lra. }
  destruct (normal_divisors a s Fa Fs Hs Hge Hlt) as (Fr & Hr & Ft & Ht & _).
  pose proof (simulate_locals_normal a s Fa Fs Hs Hge Hlt) as Hl.
  eexists. split; [exact Hl |]. cbn [wait_minutes utilization queue_length].
  split; [reflexivity |].
  split; [apply clamp_utilization_normal; assumption |].
  split; [apply (queue_normal (a / s) Fr Hr Ft Ht) |].
  apply simulate_of_locals in Hl. exact Hl.
Qed.

Lemma normal_case_closed_form_witness :
  simulate {| arrival_rate := 5; service_rate := 10 |} =
    Return {| avg_wait_time_min := 6; m_utilization := 0.5; avg_queue_length := 1 |} /\
  exists l,
    simulate_locals {| arrival_rate := 5; service_rate := 10 |} = Return l /\
    wait_minutes l = Py.max 0 (Py.min (5 / 10 / (10 * (1 - 5 / 10)) * 60) 300) /\
    (utilization l =? 5 / 10) = true /\
    (queue_length l =? 5 / 10 / (1 - 5 / 10)) = true /\
    simulate {| arrival_rate := 5; service_rate := 10 |} =
      Return {| avg_wait_time_min := Py.round (wait_minutes l) 2;
                m_utilization := Py.round (utilization l) 3;
                avg_queue_length := Py.round (queue_length l) 2 |}.
Proof.
  split; [vm_compute; reflexivity |].
  apply (normal_case_closed_form 5 10); reflexivity.
Defined.

(** C5 (as the code behaves): the pair [arrival_rate = 5],
    [service_rate = 0] is finite, and no metrics at all are returned for
    it, in range or otherwise: line 28 raises [ZeroDivisionError]. *)
Theorem no_outputs_at_zero_service :
  is_finite 5 = true /\ is_finite 0 = true /\
  simulate {| arrival_rate := 5; service_rate := 0 |} = Raise ZeroDivisionError /\
  ~ (exists m, simulate {| arrival_rate := 5; service_rate := 0 |} = Return m).
Proof.
  assert (H : simulate {| arrival_rate := 5; service_rate := 0 |}
              = Raise ZeroDivisionError) by (vm_compute; reflexivity).
  split; [reflexivity |]. split; [reflexivity |]. split; [exact H |].
  intros [m Hm]. rewrite H in Hm. discriminate.
Qed.


Lemma float_neq_lt (x y : float) : (x <? y) = true -> y <> x.
Proof.
  intros H E. subst y. apply ltb_true_iff in H. destruct H as (_ & _ & H). lra.
Qed.




(** C7, with the rounding of line 47: on every execution the utilization is
    [rho] clamped to [[0, 0.99]], whatever branch was taken, and the
    response reports it rounded to three decimals; with [service_rate > 0]
    and [0.95 <= rho <= 0.99] the clamped value is [rho] itself, beside the
    overload values of the wait and the queue length, and the response
    carries [round(rho, 3)]. *)
Theorem utilization_is_rounded_clamp (a s rho : float) (m : Metrics) :
  rho_of {| arrival_rate := a; service_rate := s |} = Return rho ->
  simulate {| arrival_rate := a; service_rate := s |} = Return m ->
  exists l,
    simulate_locals {| arrival_rate := a; service_rate := s |} = Return l /\
    utilization l = Py.max 0 (Py.min rho 0.99) /\
    within 0 0.99 (utilization l) = true /\
    m_utilization m = Py.round (utilization l) 3 /\
    ((0 <? s) = true -> (0.95 <=? a / s) = true -> (a / s <=? 0.99) = true ->
     rho = a / s /\ utilization l = a / s /\
     m_utilization m = Py.round (a / s) 3 /\
     wait_minutes l = 300 /\ queue_length l = 50).
Proof.
  intros Hrho Hm. unfold simulate, bind in Hm.
  destruct (simulate_locals {| arrival_rate := a; service_rate := s |})
    as [l |] eqn:Hl; [| discriminate].
  injection Hm as <-.
  assert (Hu : utilization l = clamp_utilization rho).
  { unfold simulate_locals in Hl. rewrite Hrho in Hl. cbn [bind] in Hl.
    destruct (branch {| arrival_rate := a; service_rate := s |} rho) as [wq |];
      [| discriminate].
    cbn [bind] in Hl. injection Hl as <-. reflexivity. }
  exists l. split; [reflexivity |]. split; [exact Hu |].
  split.
  { rewrite Hu. destruct (clamp_utilization_range rho) as [F H].
    val_lit 0 H0. apply within_intro; [fin_lit | fin_lit | exact F | lra]. }
  split; [reflexivity |].
  intros Hs Hge Hle.
  rewrite (rho_of_pos a s Hs) in Hrho. injection Hrho as <-.
  rewrite (simulate_locals_overload a s Hs Hge) in Hl. injection Hl as <-.
  cbn [wait_minutes utilization queue_length report m_utilization] in *.
  assert (Hc : clamp_utilization (a / s) = a / s).
  { unfold clamp_utilization.
    apply leb_true_iff in Hge. destruct Hge as (_ & Nr & Hge).
    apply leb_true_iff in Hle. destruct Hle as (_ & _ & Hle).
    val_lit 0.95 H95. val_lit 0.99 H99. val_lit 0 H0.
    destruct (clamp_cases 0 0.99 (a / s) ltac:(fin_lit) ltac:(fin_lit) ltac:(lra))
      as [[_ [H | [_ H]]] | [[_ (_ & H)] | [H _]]].
    - apply is_nan_false_iff in Nr. congruence.
    - lra.
    - lra.
    - exact H. }
  rewrite Hc. repeat split; reflexivity.
Qed.

Lemma utilization_is_rounded_clamp_witness :
  exists l,
    simulate_locals {| arrival_rate := 19; service_rate := 20 |} = Return l /\
    utilization l = Py.max 0 (Py.min (19 / 20) 0.99) /\
    within 0 0.99 (utilization l) = true /\
    m_utilization {| avg_wait_time_min := 300; m_utilization := 0.95;
                     avg_queue_length := 50 |} = Py.round (utilization l) 3 /\
    ((0 <? 20) = true -> (0.95 <=? 19 / 20) = true -> (19 / 20 <=? 0.99) = true ->
     19 / 20 = 19 / 20 /\ utilization l = 19 / 20 /\
     m_utilization {| avg_wait_time_min := 300; m_utilization := 0.95;
                      avg_queue_length := 50 |} = Py.round (19 / 20) 3 /\
     wait_minutes l = 300 /\ queue_length l = 50).
Proof.
  apply (utilization_is_rounded_clamp 19 20 (19 / 20)
           {| avg_wait_time_min := 300; m_utilization := 0.95;
              avg_queue_length := 50 |}); reflexivity.
Defined.

(** C7 as stated fails: with [arrival_rate = 0.96789], [service_rate = 1]
    the utilization lies between 0.95 and 0.99, and the response reports
    0.968, which is not [rho]. *)
Lemma reported_utilization_counterexample :
  (0 <? 1) = true /\ (0.95 <=? 0.96789 / 1) = true /\ (0.96789 / 1 <=? 0.99) = true /\
  simulate {| arrival_rate := 0.96789; service_rate := 1 |} =
    Return {| avg_wait_time_min := 300; m_utilization := 0.968;
              avg_queue_length := 50 |} /\
  0.968 <> 0.96789 / 1.
Proof.
  repeat split; try (vm_compute; reflexivity).
  apply float_neq_lt. reflexivity.
Qed.

(** C8: finite rates with [service_rate > 0] and [arrival_rate < 0] give
    wait 0.0, utilization 0.0 and queue length 0.0 (also when the quotient
    underflows to [-0.0] and the normal branch is taken). *)
Theorem negative_arrival_all_zero (a s : float) :
  is_finite a = true -> is_finite s = true ->
  (a <? 0) = true -> (0 <? s) = true ->
  simulate {| arrival_rate := a; service_rate := s |} =
  Return {| avg_wait_time_min := 0; m_utilization := 0; avg_queue_length := 0 |}.
Proof.
  intros Fa Fs Ha Hs. apply is_finite_finite in Fa, Fs.
  rewrite (simulate_of_locals _ _ (simulate_locals_negative_arrival a s Fa Fs Ha Hs)).
  rewrite report_zeros. reflexivity.
Qed.

Lemma negative_arrival_all_zero_witness :
  simulate {| arrival_rate := -1; service_rate := 10 |} =
  Return {| avg_wait_time_min := 0; m_utilization := 0; avg_queue_length := 0 |}.
Proof. apply (negative_arrival_all_zero (-1) 10); reflexivity. Defined.

End QueueSpec.

(** ** The traffic and resource simulators *)

Module TrafficSpec.
Import Traffic TrafficFacts.
Local Open Scope float_scope.

(** C9: whatever the density (NaN and the infinities included) and the
    signal timing, the speed is a double in [[5, 60]], the throughput is
    the speed times 10.0 and lies in [[50, 600]]. *)
Theorem speed_and_throughput_range (inp : TrafficInput) :
  within 5 60 (avg_speed_kmh (simulate inp)) = true /\
  throughput_veh_per_hr (simulate inp) = avg_speed_kmh (simulate inp) * 10 /\
  within 50 600 (throughput_veh_per_hr (simulate inp)) = true.
Proof.
  rewrite simulate_throughput, simulate_speed.
  destruct (speed_of_range (density inp)) as [Fs Hs].
  destruct (throughput_range (density inp)) as [Ft Ht].
  val_is 5 5%R H5. val_is 60 60%R H60. val_is 50 50%R H50. val_is 600 600%R H600.
  split; [| split].
  - apply within_intro; [fin_lit | fin_lit | exact Fs | lra].
  - reflexivity.
  - apply within_intro; [fin_lit | fin_lit | exact Ft | lra].
Qed.

End TrafficSpec.

Module ResourceSpec.
Import Resource ResourceFacts.
Local Open Scope float_scope.








End ResourceSpec.

(** * Part 5: further properties of the three endpoints *)

Module QueueExtra.
Import Queue QueueFacts QueueNormal QueueBranches QueueRange QueueTotal QueueSpec.
Local Open Scope float_scope.

(** X1: the queue endpoint fails exactly on a zero service rate: then it raises
    [ZeroDivisionError]; for every other pair of doubles, NaN and the
    infinities included, it returns metrics. *)
Theorem simulate_raises_iff_zero_service (a s : float) :
  ((s =? 0) = true ->
   simulate {| arrival_rate := a; service_rate := s |} = Raise ZeroDivisionError) /\
  ((s =? 0) = false ->
   exists m, simulate {| arrival_rate := a; service_rate := s |} = Return m).
Proof.
  split; intros H.
  - unfold simulate. rewrite (simulate_locals_zero_service a s H). reflexivity.
  - destruct (simulate_locals_total a s H) as [l Hl].
    exists (report l). apply simulate_of_locals, Hl.
Qed.

(** X2: every overloaded request ([service_rate > 0], [rho >= 0.95]) is
    answered with a wait of 300.0 minutes and a queue length of 50.0. *)
Theorem overload_returns_300 (a s : float) :
  (0 <? s) = true -> (0.95 <=? a / s) = true ->
  exists m,
    simulate {| arrival_rate := a; service_rate := s |} = Return m /\
    avg_wait_time_min m = 300 /\ avg_queue_length m = 50.
Proof.
  intros Hs Hge.
  rewrite (simulate_of_locals _ _ (simulate_locals_overload a s Hs Hge)).
  eexists. split; [reflexivity |]. unfold report.
  cbn [avg_wait_time_min avg_queue_length wait_minutes queue_length].
  split; [exact round_300 | exact round_50].
Qed.

Lemma overload_returns_300_witness :
  exists m,
    simulate {| arrival_rate := 100; service_rate := 20 |} = Return m /\
    avg_wait_time_min m = 300 /\ avg_queue_length m = 50.
Proof. apply (overload_returns_300 100 20); reflexivity. Defined.

(** X3: above 99% the utilization is capped: [service_rate > 0] and
    [rho > 0.99] give exactly 300.0, 0.99 and 50.0. *)
Theorem saturated_utilization_capped (a s : float) :
  (0 <? s) = true -> (0.99 <? a / s) = true ->
  simulate {| arrival_rate := a; service_rate := s |} =
  Return {| avg_wait_time_min := 300; m_utilization := 0.99; avg_queue_length := 50 |}.
Proof.
  intros Hs Hgt. apply ltb_true_iff in Hgt. destruct Hgt as (_ & Nr & Hgt).
  val_lit 0.95 H95. val_lit 0.99 H99. val_lit 0 H0.
  assert (Hge : (0.95 <=? a / s) = true).
  { apply leb_true_iff. repeat split; [apply finite_nonnan; fin_lit | exact Nr | lra]. }
  rewrite (simulate_of_locals _ _ (simulate_locals_overload a s Hs Hge)).
  assert (Hu : clamp_utilization (a / s) = 0.99).
  { unfold clamp_utilization.
    destruct (clamp_cases 0 0.99 (a / s) ltac:(fin_lit) ltac:(fin_lit) ltac:(lra))
      as [[_ [H | [_ H]]] | [[H _] | [_ (_ & H)]]].
    - apply is_nan_false_iff in Nr. congruence.
    - lra.
    - exact H.
    - lra. }
  unfold report. cbn [wait_minutes utilization queue_length].
  rewrite Hu. vm_compute. reflexivity.
Qed.

Lemma saturated_utilization_capped_witness :
  simulate {| arrival_rate := 100; service_rate := 20 |} =
  Return {| avg_wait_time_min := 300; m_utilization := 0.99; avg_queue_length := 50 |}.
Proof. apply (saturated_utilization_capped 100 20); reflexivity. Defined.

(** X4: the 240.0 default of lines 35-36 is never used: after the clamp of
    line 32 [wait_minutes] is a finite double, whatever [wait] was. *)
Theorem wait_default_never_used (wait : float) :
  is_finite (to_minutes wait) = true /\
  within 0 300 (to_minutes wait) = true /\
  json_guard (to_minutes wait) = to_minutes wait.
Proof.
  destruct (to_minutes_range wait) as [F H].
  val_is 300 300%R H300. val_lit 0 H0.
  split; [apply is_finite_finite; exact F |].
  split; [apply within_intro; [fin_lit | fin_lit | exact F | lra] |].
  apply json_guard_to_minutes.
Qed.

(** X5: a finite negative service rate, with any arrival rate at all, is answered
    with three zeros. *)
Theorem negative_service_all_zero (a s : float) :
  is_finite s = true -> (s <? 0) = true ->
  simulate {| arrival_rate := a; service_rate := s |} =
  Return {| avg_wait_time_min := 0; m_utilization := 0; avg_queue_length := 0 |}.
Proof.
  intros Fs Hs. apply is_finite_finite in Fs.
  apply ltb_true_iff in Hs. destruct Hs as (_ & _ & Hs). val_lit 0 H0.
  rewrite (simulate_of_locals _ _ (simulate_locals_negative_service a s Fs ltac:(lra))).
  rewrite report_zeros. reflexivity.
Qed.

Lemma negative_service_all_zero_witness :
  simulate {| arrival_rate := 5; service_rate := -3 |} =
  Return {| avg_wait_time_min := 0; m_utilization := 0; avg_queue_length := 0 |}.
Proof. apply (negative_service_all_zero 5 (-3)); reflexivity. Defined.

(** X6: a NaN arrival rate with a positive service rate is answered with
    wait 0.0, utilization 0.0 and the default queue length 50.0. *)
Theorem nan_arrival_default_queue (a s : float) :
  is_nan a = true -> (0 <? s) = true ->
  simulate {| arrival_rate := a; service_rate := s |} =
  Return {| avg_wait_time_min := 0; m_utilization := 0; avg_queue_length := 50 |}.
Proof.
  intros Na Hs.
  rewrite (simulate_of_locals _ _
             (simulate_locals_nan_rho _ _ (rho_of_pos a s Hs) (div_nan_l a s Na))).
  vm_compute. reflexivity.
Qed.

Lemma nan_arrival_default_queue_witness :
  simulate {| arrival_rate := nan; service_rate := 1 |} =
  Return {| avg_wait_time_min := 0; m_utilization := 0; avg_queue_length := 50 |}.
Proof. apply (nan_arrival_default_queue nan 1); reflexivity. Defined.

(** X7: no arrivals: a zero arrival rate (of either sign) with a finite positive
    service rate gives three zeros. *)
Theorem zero_arrival_all_zero (a s : float) :
  is_finite s = true -> (0 <? s) = true -> (a =? 0) = true ->
  simulate {| arrival_rate := a; service_rate := s |} =
  Return {| avg_wait_time_min := 0; m_utilization := 0; avg_queue_length := 0 |}.
Proof.
  intros Fs Hs Ha. apply is_finite_finite in Fs.
  apply zero_val_iff in Ha. destruct Ha as [Na Ha].
  pose proof Hs as Hs'. apply ltb_true_iff in Hs'. destruct Hs' as (_ & _ & Hs').
  val_lit 0 H0. rewrite H0 in Hs'.
  pose proof (bpow_gt_0 emax) as Hmax.
  assert (Fa : finite a = true) by (apply nonnan_bounded_finite; [exact Na | lra]).
  pose proof (div_RN a s Fa Fs ltac:(lra)) as Hrho.
  assert (Hz : val (a / s) = val 0).
  { apply (RN_eq _ _ _ Hrho); [fin_lit |]. rewrite Ha, H0. unfold Rdiv. ring. }
  rewrite H0 in Hz.
  assert (Fr : finite (a / s) = true) by (apply (RN_finite _ _ Hrho); lra).
  destruct (branch_zero_rho a s (a / s) Fs ltac:(lra) Fr Hz) as (w & q & Hb & Hw & Hq).
  assert (Hl : simulate_locals {| arrival_rate := a; service_rate := s |} =
               Return {| wait_minutes := 0; utilization := 0; queue_length := 0 |}).
  { unfold simulate_locals. rewrite (rho_of_pos a s Hs). cbn [bind].
    rewrite Hb. cbn [bind fst snd].
    rewrite Hw, Hq, (clamp_utilization_nonpos (a / s) (finite_nonnan _ Fr) ltac:(lra)).
    reflexivity. }
  rewrite (simulate_of_locals _ _ Hl), report_zeros. reflexivity.
Qed.

Lemma zero_arrival_all_zero_witness :
  simulate {| arrival_rate := 0; service_rate := 10 |} =
  Return {| avg_wait_time_min := 0; m_utilization := 0; avg_queue_length := 0 |}.
Proof. apply (zero_arrival_all_zero 0 10); reflexivity. Defined.

(** X13: whenever the service rate is not zero, whatever doubles the
    request holds, metrics are returned and each is a finite double in its
    range: the wait in [[0, 300]], the utilization in [[0, 0.99]], the
    queue length in [[0, 100]]. *)
Theorem nonzero_service_outputs_in_range (a s : float) :
  (s =? 0) = false ->
  exists m,
    simulate {| arrival_rate := a; service_rate := s |} = Return m /\
    within 0 300 (avg_wait_time_min m) = true /\
    within 0 0.99 (m_utilization m) = true /\
    within 0 100 (avg_queue_length m) = true /\
    is_finite (avg_wait_time_min m) = true /\
    is_finite (m_utilization m) = true /\
    is_finite (avg_queue_length m) = true.
Proof.
  intros Hs0. destruct (simulate_locals_total a s Hs0) as [l Hl].
  exists (report l). split; [apply simulate_of_locals, Hl |].
  apply report_ok. apply (simulate_locals_ok _ _ Hl).
Qed.

Lemma nonzero_service_outputs_in_range_witness :
  exists m,
    simulate {| arrival_rate := 5; service_rate := 10 |} = Return m /\
    within 0 300 (avg_wait_time_min m) = true /\
    within 0 0.99 (m_utilization m) = true /\
    within 0 100 (avg_queue_length m) = true /\
    is_finite (avg_wait_time_min m) = true /\
    is_finite (m_utilization m) = true /\
    is_finite (avg_queue_length m) = true.
Proof. apply (nonzero_service_outputs_in_range 5 10); reflexivity. Defined.

End QueueExtra.

Module TrafficExtra.
Import Traffic TrafficFacts.
Local Open Scope float_scope.

(** X8: free flow: a density that is not positive (zero, negative, minus
    infinity or NaN) gives exactly 60 km/h and 600 vehicles per hour. *)
Theorem free_flow_speed (d : float) (t : option float) :
  (0 <? d) = false ->
  simulate {| density := d; signal_timing := t |} =
  {| avg_speed_kmh := 60; throughput_veh_per_hr := 600 |}.
Proof.
  intros H.
  assert (Hm : Py.max 0 d = 0) by (unfold Py.max; rewrite H; reflexivity).
  unfold simulate. cbn [density]. rewrite Hm. reflexivity.
Qed.

Lemma free_flow_speed_witness :
  simulate {| density := -3; signal_timing := None |} =
  {| avg_speed_kmh := 60; throughput_veh_per_hr := 600 |}.
Proof. apply (free_flow_speed (-3) None); reflexivity. Defined.

(** X9: jam: a density of 1 or more (plus infinity included) gives exactly the
    floor of 5 km/h and 50 vehicles per hour. *)
Theorem jam_speed (d : float) (t : option float) :
  (1 <=? d) = true ->
  simulate {| density := d; signal_timing := t |} =
  {| avg_speed_kmh := 5; throughput_veh_per_hr := 50 |}.
Proof.
  intros H. apply leb_true_iff in H. destruct H as (_ & Nd & H).
  val_is 1 1%R H1. rewrite H1 in H.
  assert (Ho : occupancy d = 1).
  { destruct (occupancy_cases d) as [[_ [Hn | [_ Hn]]] | [[Ho _] | [_ (_ & Hn)]]].
    - apply is_nan_false_iff in Nd. congruence.
    - lra.
    - exact Ho.
    - lra. }
  unfold simulate. cbn [density]. fold (occupancy d). rewrite Ho. reflexivity.
Qed.

Lemma jam_speed_witness :
  simulate {| density := 2; signal_timing := None |} =
  {| avg_speed_kmh := 5; throughput_veh_per_hr := 50 |}.
Proof. apply (jam_speed 2 None); reflexivity. Defined.

Lemma occupancy_val d :
  nonnan d -> val (occupancy d) = Rmin 1 (Rmax 0 (val d)).
Proof.
  intros Nd. val_is 1 1%R H1. val_lit 0 H0.
  destruct (occupancy_cases d) as [[-> [Hn | [_ Hn]]] | [[-> (_ & Hn)] | [-> (_ & Hn)]]].
  - apply is_nan_false_iff in Nd. congruence.
  - rewrite Rmax_left by lra. rewrite Rmin_right by lra. exact H0.
  - rewrite Rmax_right by lra. rewrite Rmin_left by lra. exact H1.
  - rewrite Rmax_right by lra. rewrite Rmin_right by lra. reflexivity.
Qed.

(** X10: a denser road is never faster: speed and throughput are monotone
    non-increasing in the density. *)
Theorem speed_antitone (d1 d2 : float) (t1 t2 : option float) :
  (d1 <=? d2) = true ->
  (avg_speed_kmh (simulate {| density := d2; signal_timing := t2 |})
     <=? avg_speed_kmh (simulate {| density := d1; signal_timing := t1 |})) = true /\
  (throughput_veh_per_hr (simulate {| density := d2; signal_timing := t2 |})
     <=? throughput_veh_per_hr (simulate {| density := d1; signal_timing := t1 |})) = true.
Proof.
  intros H. apply leb_true_iff in H. destruct H as (N1 & N2 & H).
  rewrite !simulate_throughput, !simulate_speed. cbn [density].
  assert (Ho : (val (occupancy d1) <= val (occupancy d2))%R).
  { rewrite (occupancy_val d1 N1), (occupancy_val d2 N2).
    apply Rle_min_compat_l. apply Rle_max_compat_l. exact H. }
  destruct (free_flow_RN d1) as (_ & _ & Ht1). destruct (free_flow_RN d2) as (_ & _ & Ht2).
  assert (Ht : (val (1 - occupancy d2) <= val (1 - occupancy d1))%R)
    by (apply (RN_mono _ _ _ _ Ht2 Ht1); lra).
  destruct (raw_speed_RN d1) as (_ & _ & Hy1). destruct (raw_speed_RN d2) as (_ & _ & Hy2).
  assert (Hy : (val (60 * (1 - occupancy d2)) <= val (60 * (1 - occupancy d1)))%R)
    by (apply (RN_mono _ _ _ _ Hy2 Hy1); lra).
  destruct (speed_of_val d1) as [F1 V1]. destruct (speed_of_val d2) as [F2 V2].
  assert (Hs : (val (speed_of d2) <= val (speed_of d1))%R).
  { rewrite V1, V2. apply Rle_max_compat_l. exact Hy. }
  val_is 10 10%R H10.
  pose proof (mul_RN (speed_of d1) 10 F1 ltac:(fin_lit)) as Hp1.
  pose proof (mul_RN (speed_of d2) 10 F2 ltac:(fin_lit)) as Hp2.
  assert (Hp : (val (speed_of d2 * 10) <= val (speed_of d1 * 10))%R)
    by (apply (RN_mono _ _ _ _ Hp2 Hp1); rewrite H10; lra).
  destruct (throughput_range d1) as [Fp1 _]. destruct (throughput_range d2) as [Fp2 _].
  split; apply leb_true_iff; repeat split;
    try (apply finite_nonnan; assumption); assumption.
Qed.

Lemma speed_antitone_witness :
  (avg_speed_kmh (simulate {| density := 0.7; signal_timing := None |})
     <=? avg_speed_kmh (simulate {| density := 0.2; signal_timing := None |})) = true /\
  (throughput_veh_per_hr (simulate {| density := 0.7; signal_timing := None |})
     <=? throughput_veh_per_hr (simulate {| density := 0.2; signal_timing := None |})) = true.
Proof. apply (speed_antitone 0.2 0.7 None None); reflexivity. Defined.

End TrafficExtra.

Module ResourceExtra.
Import Resource ResourceFacts ResourceSpec.
Local Open Scope float_scope.

(** X11: the resource endpoint answers exactly the staff counts of magnitude
    below [2^1024 - 2^970]; from there on the conversion of [staff] to a
    float on line 14 raises [OverflowError]. *)
Theorem simulate_raises_iff_staff_overflows (n : Z) :
  ((Z.abs n < 2 ^ 1024 - 2 ^ 970)%Z ->
   exists m, simulate {| staff := n |} = Return m) /\
  ((2 ^ 1024 - 2 ^ 970 <= Z.abs n)%Z ->
   simulate {| staff := n |} = Raise OverflowError).
Proof.
  split; intros H.
  - destruct (simulate_in_range n H) as (f & _ & _ & _ & Hs). eexists. exact Hs.
  - unfold simulate. cbn [staff]. rewrite (float_of_int_overflow n H). reflexivity.
Qed.

Lemma coverage_RN f :
  finite f = true ->
  finite (f * 0.8) = true /\ RN (val f * val 0.8) (f * 0.8).
Proof.
  intros Ff. pose proof (mul_RN f 0.8 Ff ltac:(fin_lit)) as Hc.
  val_lit 0.8 H08. val_lit 0 H0.
  pose proof (val_finite_lt _ Ff) as Hfb.
  split; [| exact Hc].
  destruct (Rle_or_lt 0 (val f)) as [Hpos | Hneg].
  - destruct (RN_finite_between _ _ 0 f Hc ltac:(fin_lit) Ff) as [F _]; [| exact F].
    rewrite H08, H0. lra.
  - destruct (RN_finite_between _ _ f 0 Hc Ff ltac:(fin_lit)) as [F _]; [| exact F].
    rewrite H08, H0. lra.
Qed.

(** X12: coverage is [float(staff) * 0.8]: monotone in the staff count and never
    negative for a non-negative count. *)
Theorem coverage_monotone (n1 n2 : Z) :
  (Z.abs n1 < 2 ^ 1024 - 2 ^ 970)%Z -> (Z.abs n2 < 2 ^ 1024 - 2 ^ 970)%Z ->
  (n1 <= n2)%Z ->
  exists f1 m1 m2,
    Py.float_of_int n1 = Return f1 /\
    simulate {| staff := n1 |} = Return m1 /\
    simulate {| staff := n2 |} = Return m2 /\
    coverage_units m1 = f1 * 0.8 /\
    (coverage_units m1 <=? coverage_units m2) = true /\
    ((0 <= n1)%Z -> (0 <=? coverage_units m1) = true).
Proof.
  intros H1 H2 Hle.
  destruct (simulate_in_range n1 H1) as (f1 & Hf1 & F1 & R1 & S1).
  destruct (simulate_in_range n2 H2) as (f2 & Hf2 & F2 & R2 & S2).
  exists f1. eexists. eexists.
  split; [exact Hf1 |]. split; [exact S1 |]. split; [exact S2 |].
  cbn [coverage_units].
  destruct (coverage_RN f1 F1) as [Fc1 Hc1]. destruct (coverage_RN f2 F2) as [Fc2 Hc2].
  val_lit 0.8 H08. val_lit 0 H0.
  assert (Hf : (val f1 <= val f2)%R).
  { apply (RN_mono _ _ _ _ R1 R2). apply IZR_le. exact Hle. }
  split; [reflexivity |]. split.
  - apply leb_true_iff. repeat split; try (apply finite_nonnan; assumption).
    apply (RN_mono _ _ _ _ Hc1 Hc2). rewrite H08. lra.
  - intros Hn. apply leb_true_iff.
    repeat split; try (apply finite_nonnan; try assumption; fin_lit).
    rewrite H0. destruct (RN_sign _ _ Hc1) as [Hp _]. apply Hp.
    destruct (RN_sign _ _ R1) as [Hp1 _].
    assert (0 <= val f1)%R by (apply Hp1; apply IZR_le; exact Hn).
    rewrite H08. lra.
Qed.

Lemma coverage_monotone_witness :
  exists f1 m1 m2,
    Py.float_of_int 3 = Return f1 /\
    simulate {| staff := 3 |} = Return m1 /\
    simulate {| staff := 10 |} = Return m2 /\
    coverage_units m1 = f1 * 0.8 /\
    (coverage_units m1 <=? coverage_units m2) = true /\
    ((0 <= 3)%Z -> (0 <=? coverage_units m1) = true).
Proof. apply (coverage_monotone 3 10); [reflexivity | reflexivity | lia]. Defined.

End ResourceExtra.

